(** * Indicator library and signal engine: a shallow embedding

    The development follows the TypeScript modules of the repository:
    the indicator library ([calculateSMA], [calculateEMA], [calculateMACD],
    [calculateRSI], [calculateATR]), the signal engine ([analyzeData]) and,
    of the market-data module, the synthetic series ([generateMarketData])
    and the interval lengths ([getIntervalMilliseconds]).  The network fetch
    of that module is not modelled.

    Numbers.  A JavaScript [number] is modelled by [number]: an exact
    rational, or [NaN].  Rounding, overflow and the two infinities of
    binary64 are not modelled, and neither is the sign of zero.  In this
    program a division by zero can only be [0 / 0] (a period of [0]), every
    other divisor is a positive count or is guarded by a [> 0] test, so the
    model maps a zero divisor to [NaN].
    The properties stated on [number] are those that do not depend on
    rounding: shapes, definedness, recurrences, decisions.  The range of the
    RSI does depend on it, and is studied in the module [Rounded], over
    binary64 itself and over exact operations followed by a rounding.

    Arrays.  A [(number | null)[]] is a [list cell]; a read outside the
    array is [Undefined], and an assignment at the index just past the end
    makes the array one longer, as JavaScript does.

    Periods are counts of bars, in [nat]; the tests the source writes on
    [period - 1] are made in [Z].  A [for] loop that pushes one cell per
    index is a [map] over the indices or a recursion on the rest of the
    input; a loop that assigns into an array is a [fold_left] over its
    indices.  The clock read by [Date.now()] is the argument [now] of
    [analyzeData]. *)

From Stdlib Require Import ZArith QArith Qabs Qminmax Qreduction Lia Lqa.
From Stdlib Require Import Ascii String DecimalString DecimalNat.
From Stdlib Require Floats.
From stdpp Require Import base list.

Open Scope Q_scope.

(** ** Numbers *)

Inductive number : Type :=
  | Fin (q : Q)
  | NaN.

Definition num_of_nat (n : nat) : number := Fin (inject_Z (Z.of_nat n)).

Definition Qlt_bool (x y : Q) : bool := negb (Qle_bool y x).

Definition num_add (a b : number) : number :=
  match a, b with
  | Fin x, Fin y => Fin (Qred (x + y))
  | _, _ => NaN
  end.

Definition num_sub (a b : number) : number :=
  match a, b with
  | Fin x, Fin y => Fin (Qred (x - y))
  | _, _ => NaN
  end.

Definition num_mul (a b : number) : number :=
  match a, b with
  | Fin x, Fin y => Fin (Qred (x * y))
  | _, _ => NaN
  end.

Definition num_div (a b : number) : number :=
  match a, b with
  | Fin x, Fin y => if Qeq_bool y 0 then NaN else Fin (Qred (x / y))
  | _, _ => NaN
  end.

Definition num_neg (a : number) : number :=
  match a with
  | Fin x => Fin (- x)
  | NaN => NaN
  end.

(** [Math.abs] and [Math.max]: [NaN] as soon as one argument is. *)
Definition num_abs (a : number) : number :=
  match a with
  | Fin x => Fin (Qabs x)
  | NaN => NaN
  end.

Definition num_max (a b : number) : number :=
  match a, b with
  | Fin x, Fin y => Fin (Qmax x y)
  | _, _ => NaN
  end.

Definition num_max3 (a b c : number) : number := num_max (num_max a b) c.

(** [a > b] and [a < b]: false as soon as one side is [NaN]. *)
Definition num_gt (a b : number) : bool :=
  match a, b with
  | Fin x, Fin y => Qlt_bool y x
  | _, _ => false
  end.

Definition num_lt (a b : number) : bool := num_gt b a.

(** [a === b] on numbers: [NaN] equals nothing. *)
Definition num_eqb (a b : number) : bool :=
  match a, b with
  | Fin x, Fin y => Qeq_bool x y
  | _, _ => false
  end.

(** ** Array cells

    [Null] is the "undefined marker" the indicators push; [Undefined] is
    what JavaScript gives for a read outside the array. *)

Inductive cell : Type :=
  | Undefined
  | Null
  | Num (x : number).

(** [v !== null] *)
Definition not_null (c : cell) : bool :=
  match c with Null => false | _ => true end.

(** [v !== null && v !== undefined] *)
Definition is_defined (c : cell) : bool :=
  match c with Num _ => true | _ => false end.

(** The number an arithmetic operator sees in a cell: [null] counts as [0],
    [undefined] as [NaN]. *)
Definition to_number (c : cell) : number :=
  match c with
  | Num x => x
  | Null => Fin 0
  | Undefined => NaN
  end.

(** [arr[i]] on a [(number | null)[]]. *)
Definition get (arr : list cell) (i : nat) : cell :=
  match arr !! i with
  | Some c => c
  | None => Undefined
  end.

(** [arr[i]] on a [number[]], used in arithmetic: outside the array the read
    is [undefined], which every arithmetic operator and comparison of the
    program turns into [NaN]. *)
Definition get_num (arr : list number) (i : nat) : number :=
  match arr !! i with
  | Some x => x
  | None => NaN
  end.

(** [arr[i] = v]: in place inside the array; at or past the end the array
    grows, the slots in between being empty (they read as [undefined]). *)
Definition array_set (arr : list cell) (i : nat) (v : cell) : list cell :=
  if (i <? length arr)%nat then <[i := v]> arr
  else arr ++ replicate (i - length arr) Undefined ++ [v].

(** [arr.slice(s, e)] for [0 <= s]. *)
Definition slice {A} (arr : list A) (s e : nat) : list A :=
  take (e - s) (drop s arr).

(** [arr.reduce((acc, val) => acc + val, 0)] *)
Definition num_sum (arr : list number) : number :=
  fold_left num_add arr (Fin 0).

(** ** Indicator library *)

(** [calculateSMA]: one push per index. The test [i < period - 1] is on
    integers, [period - 1] being [-1] for a period of [0]. *)
Definition sma_at (data : list number) (period : nat) (i : nat) : cell :=
  if (Z.of_nat i <? Z.of_nat period - 1)%Z then Null
  else Num (num_div (num_sum (slice data (i + 1 - period) (i + 1)))
                    (num_of_nat period)).

Definition calculateSMA (data : list number) (period : nat) : list cell :=
  sma_at data period <$> seq 0 (length data).

(** [calculateEMA]: the loop over [i], with [rest] the part of [data] from
    index [i] on and [prevEma] the loop variable of the source. *)
Fixpoint ema_loop (multiplier : number) (period : nat)
    (initialSmaValues : list cell) (i : nat) (prevEma : cell)
    (rest : list number) : list cell :=
  match rest with
  | [] => []
  | x :: rest' =>
      if (Z.of_nat i <? Z.of_nat period - 1)%Z then
        Null :: ema_loop multiplier period initialSmaValues (S i) prevEma rest'
      else if (Z.of_nat i =? Z.of_nat period - 1)%Z then
        let prevEma := get initialSmaValues i in
        prevEma :: ema_loop multiplier period initialSmaValues (S i) prevEma rest'
      else if not_null prevEma then
        let currentEma :=
          num_add (num_mul (num_sub x (to_number prevEma)) multiplier)
                  (to_number prevEma) in
        Num currentEma
          :: ema_loop multiplier period initialSmaValues (S i) (Num currentEma) rest'
      else
        Null :: ema_loop multiplier period initialSmaValues (S i) prevEma rest'
  end.

Definition calculateEMA (data : list number) (period : nat) : list cell :=
  let multiplier := num_div (Fin 2) (num_of_nat (period + 1)) in
  ema_loop multiplier period (calculateSMA data period) 0 Null data.

(** ** Completions

    The one operation of the program that can throw is [Array(n)], a
    [RangeError] for a negative [n]; code that calls it returns a
    [completion]. *)

Inductive exn : Type := RangeError.

Inductive completion (A : Type) : Type :=
  | Normal (a : A)
  | Throw (e : exn).
Arguments Normal {A} a.
Arguments Throw {A} e.

Definition bind {A B} (m : completion A) (k : A -> completion B) : completion B :=
  match m with
  | Normal a => k a
  | Throw e => Throw e
  end.

Notation "'let*' x ':=' m 'in' k" := (bind m (fun x => k))
  (at level 10, x name, m at level 100, k at level 200).

(** [Array(n)]: [n] empty slots. *)
Definition js_Array (n : Z) : completion (list cell) :=
  if (n <? 0)%Z then Throw RangeError
  else Normal (replicate (Z.to_nat n) Undefined).

(** [arr.fill(v)] *)
Definition fill (v : cell) (arr : list cell) : list cell :=
  (fun _ => v) <$> arr.

(** ** MACD *)

Record MACD : Type := mkMACD {
  macdLine : list cell;
  signalLine : list cell;
  histogram : list cell
}.

(** The body shared by the two loops of [calculateMACD]:
    [a[i] !== null && b[i] !== null ? a[i] - b[i] : null]. *)
Definition diff_at (a b : list cell) (i : nat) : cell :=
  if not_null (get a i) && not_null (get b i)
  then Num (num_sub (to_number (get a i)) (to_number (get b i)))
  else Null.

(** [arr.filter(val => val !== null) as number[]] *)
Definition valid_numbers (arr : list cell) : list number :=
  to_number <$> filter (fun c => Is_true (not_null c)) arr.

Definition macd_line (data : list number) (fastPeriod slowPeriod : nat) : list cell :=
  diff_at (calculateEMA data fastPeriod) (calculateEMA data slowPeriod)
    <$> seq 0 (length data).

Definition calculateMACD (data : list number)
    (fastPeriod slowPeriod signalPeriod : nat) : completion MACD :=
  let macdLine := macd_line data fastPeriod slowPeriod in
  let validMacdData := valid_numbers macdLine in
  let signalLinePadded := calculateEMA validMacdData signalPeriod in
  let* padding :=
    js_Array (Z.of_nat (length data) - Z.of_nat (length validMacdData)) in
  let signalLine := fill Null padding ++ signalLinePadded in
  let histogram := diff_at macdLine signalLine <$> seq 0 (length data) in
  Normal (mkMACD macdLine signalLine histogram).

(** ** RSI *)

(** [data.map((price, i) => i > 0 ? price - data[i-1] : 0).slice(1)] *)
Definition changes_of (data : list number) : list number :=
  drop 1 (imap (fun i price =>
                  if (0 <? i)%nat then num_sub price (get_num data (i - 1))
                  else Fin 0) data).

(** One turn of the seeding loop, on [(initialGains, initialLosses)]. *)
Definition rsi_initial_step (changes : list number)
    (acc : number * number) (i : nat) : number * number :=
  if num_gt (get_num changes i) (Fin 0)
  then (num_add acc.1 (get_num changes i), acc.2)
  else (acc.1, num_sub acc.2 (get_num changes i)).

(** [rs = avgLoss > 0 ? avgGain / avgLoss : 0] *)
Definition relative_strength (avg : number * number) : number :=
  if num_gt avg.2 (Fin 0) then num_div avg.1 avg.2 else Fin 0.

(** [100 - (100 / (1 + rs))] *)
Definition rsi_value (avg : number * number) : number :=
  num_sub (Fin 100) (num_div (Fin 100) (num_add (Fin 1) (relative_strength avg))).

(** The seed [(avgGain, avgLoss)]. *)
Definition rsi_seed (changes : list number) (period : nat) : number * number :=
  let sums := fold_left (rsi_initial_step changes) (seq 0 period) (Fin 0, Fin 0) in
  (num_div sums.1 (num_of_nat period), num_div sums.2 (num_of_nat period)).

(** Wilder smoothing of [(avgGain, avgLoss)] with the change at [i]. *)
Definition rsi_smooth (changes : list number) (period : nat)
    (avg : number * number) (i : nat) : number * number :=
  let change := get_num changes i in
  let gain := if num_gt change (Fin 0) then change else Fin 0 in
  let loss := if num_lt change (Fin 0) then num_neg change else Fin 0 in
  (num_div (num_add (num_mul avg.1 (num_sub (num_of_nat period) (Fin 1))) gain)
           (num_of_nat period),
   num_div (num_add (num_mul avg.2 (num_sub (num_of_nat period) (Fin 1))) loss)
           (num_of_nat period)).

(** One turn of the main loop, on the averages and the output array. *)
Definition rsi_step (changes : list number) (period : nat)
    (st : number * number * list cell) (i : nat) : number * number * list cell :=
  let avg := rsi_smooth changes period st.1 i in
  (avg, array_set st.2 (i + 1) (Num (rsi_value avg))).

(** [calculateRSI]. [Array(data.length).fill(null)] cannot throw, a length
    not being negative; the writes [rsi[period]] and [rsi[i + 1]] go through
    [array_set]. *)
Definition calculateRSI (data : list number) (period : nat) : list cell :=
  let rsi := replicate (length data) Null in
  if (length data <=? period)%nat then rsi
  else
    let changes := changes_of data in
    let avg := rsi_seed changes period in
    let rsi := array_set rsi period (Num (rsi_value avg)) in
    (fold_left (rsi_step changes period)
               (seq period (length changes - period)) (avg, rsi)).2.

(** The running [(avgGain, avgLoss)] after [k] turns of the main loop. *)
Definition rsi_avg (data : list number) (period k : nat) : number * number :=
  fold_left (rsi_smooth (changes_of data) period) (seq period k)
            (rsi_seed (changes_of data) period).

(** ** ATR *)

(** [Math.max(high[i] - low[i], Math.abs(high[i] - close[i - 1]),
    Math.abs(low[i] - close[i - 1]))] *)
Definition true_range (high low close : list number) (i : nat) : number :=
  num_max3 (num_sub (get_num high i) (get_num low i))
           (num_abs (num_sub (get_num high i) (get_num close (i - 1))))
           (num_abs (num_sub (get_num low i) (get_num close (i - 1)))).

(** One turn of the main loop:
    [atr[i] = (atr[i - 1]! * (period - 1) + tr) / period]. *)
Definition atr_step (high low close : list number) (period : nat)
    (atr : list cell) (i : nat) : list cell :=
  let tr := true_range high low close i in
  array_set atr i
    (Num (num_div (num_add (num_mul (to_number (get atr (i - 1)))
                                    (num_sub (num_of_nat period) (Fin 1))) tr)
                  (num_of_nat period))).

(** [calculateATR]. The seed is written at [atr[period]] whenever
    [high.length < period] is false, so also when [high.length] is
    [period]; the reads [high[i]], [low[i]] and [close[i - 1]] of the true
    range go through [get_num]. *)
Definition calculateATR (high low close : list number) (period : nat) : list cell :=
  let atr := replicate (length high) Null in
  if (length high <? period)%nat then atr
  else
    let tr_sum :=
      fold_left (fun s i => num_add s (true_range high low close i))
                (seq 1 period) (Fin 0) in
    let atr := array_set atr period (Num (num_div tr_sum (num_of_nat period))) in
    fold_left (atr_step high low close period)
              (seq (period + 1) (length high - (period + 1))) atr.

(** ** Signal engine *)

Record MarketData : Type := mkMarketData {
  date : Z;  (* [date.getTime()], milliseconds *)
  open : number;
  high : number;
  low : number;
  close : number;
  volume : number
}.

Inductive Direction : Type := BUY | SELL | HOLD.

Record IndicatorData : Type := mkIndicatorData {
  ema50 : list cell;
  ema200 : list cell;
  ind_macdLine : list cell;
  ind_signalLine : list cell;
  ind_histogram : list cell;
  rsi : list cell;
  atr : list cell
}.

(** The value [analyzeData] returns; [None] in the three price levels is
    [null]. *)
Record Signal : Type := mkSignal {
  id : string;
  timestamp : Z;
  direction : Direction;
  currentPrice : number;
  entryPrice : option number;
  stopLoss : option number;
  takeProfit : option number;
  reasoning : list string;
  indicatorData : IndicatorData
}.

Definition RISK_REWARD_RATIO : number := Fin (3 # 2).
Definition ATR_MULTIPLIER : number := Fin 2.

(** [x || 0] on a read of a [number[]]: [undefined], [NaN] and [0] give [0]. *)
Definition or_zero (x : option number) : number :=
  match x with
  | Some (Fin q) => if Qeq_bool q 0 then Fin 0 else Fin q
  | _ => Fin 0
  end.

(** [data[len - 1]?.date.getTime() || Date.now()], [now] being the clock. *)
Definition timestamp_of (now : Z) (bar : option MarketData) : Z :=
  match bar with
  | Some d => if (date d =? 0)%Z then now else date d
  | None => now
  end.

Definition direction_name (d : Direction) : string :=
  match d with
  | BUY => "BUY"
  | SELL => "SELL"
  | HOLD => "HOLD"
  end.

(** The template [`<DIRECTION>-${timestamp}`]. *)
Definition signal_id (d : Direction) (timestamp : Z) : string :=
  (direction_name d ++ "-" ++ NilZero.string_of_int (Z.to_int timestamp))%string.

Definition not_enough_data : string :=
  "Not enough data points to generate signals.".
Definition still_calculating : string :=
  "Indicators are still calculating.".
Definition no_confluence : string :=
  "No high-confluence signal conditions met. Waiting for alignment.".

Definition buy_reasoning : list string :=
  [ "Uptrend Confirmed: EMA (50) is above EMA (200).";
    "Bullish Price Action: Price is trading above the EMA (50).";
    "Bullish Momentum: MACD is positive and above its signal line.";
    "Strong Momentum: RSI is above 55, indicating strong buying pressure." ]%string.

Definition sell_reasoning : list string :=
  [ "Downtrend Confirmed: EMA (50) is below EMA (200).";
    "Bearish Price Action: Price is trading below the EMA (50).";
    "Bearish Momentum: MACD is negative and below its signal line.";
    "Strong Momentum: RSI is below 45, indicating strong selling pressure." ]%string.

(** The values [analyzeData] reads at the latest index. *)
Record Latest : Type := mkLatest {
  currentEma50 : cell;
  currentEma200 : cell;
  currentMacd : cell;
  currentSignal : cell;
  currentRsi : cell;
  currentAtr : cell
}.

Definition latest_of (len : nat) (ind : IndicatorData) : Latest :=
  mkLatest (get (ema50 ind) (len - 1)) (get (ema200 ind) (len - 1))
           (get (ind_macdLine ind) (len - 1)) (get (ind_signalLine ind) (len - 1))
           (get (rsi ind) (len - 1)) (get (atr ind) (len - 1)).

Definition allDataAvailable (currentPrice : number) (l : Latest) : bool :=
  forallb is_defined
    [ Num currentPrice; currentEma50 l; currentEma200 l;
      currentMacd l; currentSignal l; currentRsi l; currentAtr l ].

Definition isUptrend (l : Latest) : bool :=
  num_gt (to_number (currentEma50 l)) (to_number (currentEma200 l)).
Definition isPriceActionBullish (currentPrice : number) (l : Latest) : bool :=
  num_gt currentPrice (to_number (currentEma50 l)).
Definition isMacdBullish (l : Latest) : bool :=
  num_gt (to_number (currentMacd l)) (to_number (currentSignal l))
  && num_gt (to_number (currentMacd l)) (Fin 0).
Definition isRsiBullish (l : Latest) : bool :=
  num_gt (to_number (currentRsi l)) (Fin 55).

Definition isDowntrend (l : Latest) : bool :=
  num_lt (to_number (currentEma50 l)) (to_number (currentEma200 l)).
Definition isPriceActionBearish (currentPrice : number) (l : Latest) : bool :=
  num_lt currentPrice (to_number (currentEma50 l)).
Definition isMacdBearish (l : Latest) : bool :=
  num_lt (to_number (currentMacd l)) (to_number (currentSignal l))
  && num_lt (to_number (currentMacd l)) (Fin 0).
Definition isRsiBearish (l : Latest) : bool :=
  num_lt (to_number (currentRsi l)) (Fin 45).

(** The indicator snapshot of step 2. *)
Definition indicators_of (data : list MarketData) : completion IndicatorData :=
  let closePrices := close <$> data in
  let highPrices := high <$> data in
  let lowPrices := low <$> data in
  let ema50 := calculateEMA closePrices 50 in
  let ema200 := calculateEMA closePrices 200 in
  let* macd := calculateMACD closePrices 12 26 9 in
  let rsi := calculateRSI closePrices 14 in
  let atr := calculateATR highPrices lowPrices closePrices 14 in
  Normal (mkIndicatorData ema50 ema200 (macdLine macd) (signalLine macd)
                          (histogram macd) rsi atr).

(** The decision of steps 3 to 7, on the snapshot. *)
Definition decide_signal (len : nat) (currentPrice : number) (timestamp : Z)
    (indicatorData : IndicatorData) : Signal :=
  let baseSignal direction reasoning :=
    mkSignal (signal_id HOLD timestamp) timestamp direction currentPrice
             None None None reasoning indicatorData in
  if (len <? 200)%nat then baseSignal HOLD [not_enough_data]
  else
    let l := latest_of len indicatorData in
    if negb (allDataAvailable currentPrice l) then
      baseSignal HOLD [still_calculating]
    else if isUptrend l && isPriceActionBullish currentPrice l
            && isMacdBullish l && isRsiBullish l then
      let entryPrice := currentPrice in
      let stopLoss :=
        num_sub entryPrice (num_mul (to_number (currentAtr l)) ATR_MULTIPLIER) in
      let takeProfit :=
        num_add entryPrice
                (num_mul (num_sub entryPrice stopLoss) RISK_REWARD_RATIO) in
      mkSignal (signal_id BUY timestamp) timestamp BUY currentPrice
               (Some entryPrice) (Some stopLoss) (Some takeProfit)
               buy_reasoning indicatorData
    else if isDowntrend l && isPriceActionBearish currentPrice l
            && isMacdBearish l && isRsiBearish l then
      let entryPrice := currentPrice in
      let stopLoss :=
        num_add entryPrice (num_mul (to_number (currentAtr l)) ATR_MULTIPLIER) in
      let takeProfit :=
        num_sub entryPrice
                (num_mul (num_sub stopLoss entryPrice) RISK_REWARD_RATIO) in
      mkSignal (signal_id SELL timestamp) timestamp SELL currentPrice
               (Some entryPrice) (Some stopLoss) (Some takeProfit)
               sell_reasoning indicatorData
    else baseSignal HOLD [no_confluence].

Definition analyzeData (now : Z) (data : list MarketData) : completion Signal :=
  let closePrices := close <$> data in
  let len := length closePrices in
  let currentPrice := or_zero (closePrices !! (len - 1)%nat) in
  let timestamp := timestamp_of now (data !! (len - 1)%nat) in
  let* indicatorData := indicators_of data in
  Normal (decide_signal len currentPrice timestamp indicatorData).

(** ** Synthetic market data

    [generateMarketData] draws from [Math.random()] and reads the clock:
    the [n]-th draw is [rnd n] and the clock is [now].  The loop state is
    [(lastClose, trend, n)], [n] counting the draws made so far. *)

Open Scope Q_scope.

Definition num_min (a b : number) : number :=
  match a, b with
  | Fin x, Fin y => Fin (Qmin x y)
  | _, _ => NaN
  end.

Definition basePrices : list (string * number) :=
  [ ("BTC/USDT", Fin 60000); ("ETH/USDT", Fin 3000); ("SOL/USDT", Fin 150);
    ("DOGE/USDT", Fin 0.15); ("BNB/USDT", Fin 600); ("XRP/USDT", Fin 0.5);
    ("ADA/USDT", Fin 0.45); ("AVAX/USDT", Fin 35); ("LINK/USDT", Fin 18);
    ("DOT/USDT", Fin 7) ]%string.

(** The properties every object literal inherits from [Object.prototype]:
    functions, and for [__proto__] an object. *)
Definition inherited_keys : list string :=
  [ "constructor"; "hasOwnProperty"; "isPrototypeOf"; "propertyIsEnumerable";
    "toLocaleString"; "toString"; "valueOf"; "__proto__"; "__defineGetter__";
    "__defineSetter__"; "__lookupGetter__"; "__lookupSetter__" ]%string.

Fixpoint own_property (obj : list (string * number)) (key : string) : option number :=
  match obj with
  | [] => None
  | (k, v) :: rest => if String.eqb key k then Some v else own_property rest key
  end.

(** [(basePrices[pairId] || 50000)] as the multiplication that follows sees
    it: the price of a listed pair, 50000 for an unknown key, and [NaN] for
    an inherited key (a function or an object is truthy, and is [NaN] as a
    number). *)
Definition base_price (pairId : string) : number :=
  match own_property basePrices pairId with
  | Some (Fin q) => if Qeq_bool q 0 then Fin 50000 else Fin q
  | Some NaN => Fin 50000
  | None =>
      if existsb (String.eqb pairId) inherited_keys then NaN else Fin 50000
  end.

(** [Math.random()], the [n]-th draw. *)
Definition random (rnd : nat -> Q) (n : nat) : number := Fin (rnd n).

(** One turn of the loop of [generateMarketData]. *)
Definition generate_step (rnd : nat -> Q) (now : Z) (count : nat)
    (st : number * number * nat) (i : nat) : MarketData * (number * number * nat) :=
  let '(lastClose, trend, n) := st in
  let date := (now - (Z.of_nat count - Z.of_nat i) * 60 * 60 * 1000)%Z in
  let trend :=
    if num_lt (random rnd n) (Fin 0.05) then num_mul trend (Fin (-1)) else trend in
  let volatility := num_add (Fin 0.02) (num_mul (random rnd (n + 1)) (Fin 0.03)) in
  let change :=
    num_add (num_mul (num_mul lastClose volatility)
                     (num_sub (random rnd (n + 2)) (Fin 0.45)))
            (num_mul (num_mul lastClose (Fin 0.001)) trend) in
  let open := lastClose in
  let close := num_add open change in
  let high :=
    num_mul (num_max open close)
            (num_add (Fin 1) (num_div (num_mul (random rnd (n + 3)) volatility) (Fin 2))) in
  let low :=
    num_mul (num_min open close)
            (num_sub (Fin 1) (num_div (num_mul (random rnd (n + 4)) volatility) (Fin 2))) in
  let volume := num_add (Fin 1000) (num_mul (random rnd (n + 5)) (Fin 5000)) in
  (mkMarketData date open high low close volume, (close, trend, (n + 6)%nat)).

Fixpoint generate_loop (rnd : nat -> Q) (now : Z) (count : nat)
    (st : number * number * nat) (indices : list nat) : list MarketData :=
  match indices with
  | [] => []
  | i :: rest =>
      let step := generate_step rnd now count st i in
      step.1 :: generate_loop rnd now count step.2 rest
  end.

Definition generateMarketData (rnd : nat -> Q) (now : Z) (count : nat)
    (pairId : string) : list MarketData :=
  let lastClose :=
    num_mul (base_price pairId)
            (num_add (Fin 0.9) (num_mul (random rnd 0) (Fin 0.2))) in
  let trend := if num_gt (random rnd 1) (Fin 0.5) then Fin 1 else Fin (-1) in
  generate_loop rnd now count (lastClose, trend, 2%nat) (seq 0 count).

Close Scope Q_scope.

(** ** Interval lengths

    Strings are sequences of code units below 256.  [parseInt] is the
    built-in with no radix argument: leading white space, a sign, a [0x] or
    [0X] prefix, then the longest run of digits of the radix; [NaN] when that
    run is empty. *)

(** [s.slice(-1)]: the last character, or the empty string. *)
Fixpoint slice_last (s : string) : string :=
  match s with
  | EmptyString => EmptyString
  | String c rest =>
      match rest with
      | EmptyString => String c EmptyString
      | String _ _ => slice_last rest
      end
  end.

(** [s.slice(0, -1)]: all but the last character. *)
Fixpoint slice_init (s : string) : string :=
  match s with
  | EmptyString => EmptyString
  | String c rest =>
      match rest with
      | EmptyString => EmptyString
      | String _ _ => String c (slice_init rest)
      end
  end.

Definition is_white_space (c : Ascii.ascii) : bool :=
  let n := Ascii.nat_of_ascii c in
  (n =? 9)%nat || (n =? 10)%nat || (n =? 11)%nat || (n =? 12)%nat
  || (n =? 13)%nat || (n =? 32)%nat || (n =? 160)%nat.

Fixpoint trim_start (s : string) : string :=
  match s with
  | EmptyString => EmptyString
  | String c rest => if is_white_space c then trim_start rest else s
  end.

(** The value of a digit: [0]-[9], then the letters in either case. *)
Definition digit_value (c : Ascii.ascii) : option nat :=
  let n := Ascii.nat_of_ascii c in
  if (48 <=? n)%nat && (n <=? 57)%nat then Some (n - 48)%nat
  else if (97 <=? n)%nat && (n <=? 122)%nat then Some (n - 87)%nat
  else if (65 <=? n)%nat && (n <=? 90)%nat then Some (n - 55)%nat
  else None.

(** The longest run of digits of [radix] at the start of [s], as a number;
    [acc] is [None] as long as no digit was read. *)
Fixpoint parse_digits (radix : nat) (s : string) (acc : option nat) : option nat :=
  match s with
  | EmptyString => acc
  | String c rest =>
      match digit_value c with
      | Some d =>
          if (d <? radix)%nat
          then parse_digits radix rest
                 (Some (match acc with Some a => a | None => 0 end * radix + d)%nat)
          else acc
      | None => acc
      end
  end.

Definition parseInt (s : string) : number :=
  let s := trim_start s in
  let '(sign, s) :=
    match s with
    | String "-"%char rest => ((-1)%Z, rest)
    | String "+"%char rest => (1%Z, rest)
    | _ => (1%Z, s)
    end in
  let '(radix, s) :=
    match s with
    | String "0"%char (String "x"%char rest) => (16%nat, rest)
    | String "0"%char (String "X"%char rest) => (16%nat, rest)
    | _ => (10%nat, s)
    end in
  match parse_digits radix s None with
  | Some v => Fin (inject_Z (sign * Z.of_nat v))
  | None => NaN
  end.

Definition getIntervalMilliseconds (interval : string) : number :=
  let unit := slice_last interval in
  let value := parseInt (slice_init interval) in
  if String.eqb unit "m" then num_mul (num_mul value (Fin 60)) (Fin 1000)
  else if String.eqb unit "h" then
    num_mul (num_mul (num_mul value (Fin 60)) (Fin 60)) (Fin 1000)
  else if String.eqb unit "d" then
    num_mul (num_mul (num_mul (num_mul value (Fin 24)) (Fin 60)) (Fin 60)) (Fin 1000)
  else num_mul (num_mul (Fin 60) (Fin 60)) (Fin 1000).

Open Scope Q_scope.

(** ** The RSI over a rounded arithmetic

    The range of the RSI depends on what the arithmetic does when it rounds
    and when it overflows, so [calculateRSI] is written once more over an
    interface of the operations it uses, [arithmetic], and read at two
    instances: [binary64], the IEEE-754 double precision numbers of
    JavaScript, and [rounded rnd], exact arithmetic on the rationals and the
    two infinities followed by a rounding [rnd]. *)

Module Rounded.

(** The operations [calculateRSI] and [calculateATR] make on numbers:
    [of_Z] gives the number of an integer literal or of a count, [gt a b] is
    [a > b], [le a b] is [a <= b], [abs] is [Math.abs] and [max] is
    [Math.max] on two arguments. *)
Record arithmetic : Type := mkArithmetic {
  num : Type;
  of_Z : Z -> num;
  nan : num;
  add : num -> num -> num;
  sub : num -> num -> num;
  mul : num -> num -> num;
  div : num -> num -> num;
  neg : num -> num;
  abs : num -> num;
  max : num -> num -> num;
  gt : num -> num -> bool;
  le : num -> num -> bool;
  is_nan : num -> bool
}.

Inductive cell (N : Type) : Type :=
  | Undefined
  | Null
  | Num (x : N).

Arguments Undefined {N}.
Arguments Null {N}.
Arguments Num {N} x.

Section RSI.

Variable A : arithmetic.

Definition lt (a b : num A) : bool := gt A b a.

Definition get_num (arr : list (num A)) (i : nat) : num A :=
  match arr !! i with
  | Some x => x
  | None => nan A
  end.

Definition array_set (arr : list (cell (num A))) (i : nat) (v : cell (num A)) :
    list (cell (num A)) :=
  if (i <? length arr)%nat then <[i := v]> arr
  else arr ++ replicate (i - length arr) Undefined ++ [v].

(** [data.map((price, i) => i > 0 ? price - data[i-1] : 0).slice(1)] *)
Definition changes_of (data : list (num A)) : list (num A) :=
  drop 1 (imap (fun i price =>
                  if (0 <? i)%nat then sub A price (get_num data (i - 1))
                  else of_Z A 0) data).

Definition rsi_initial_step (changes : list (num A))
    (acc : num A * num A) (i : nat) : num A * num A :=
  if gt A (get_num changes i) (of_Z A 0)
  then (add A acc.1 (get_num changes i), acc.2)
  else (acc.1, sub A acc.2 (get_num changes i)).

(** [rs = avgLoss > 0 ? avgGain / avgLoss : 0] *)
Definition relative_strength (avg : num A * num A) : num A :=
  if gt A avg.2 (of_Z A 0) then div A avg.1 avg.2 else of_Z A 0.

(** [100 - (100 / (1 + rs))] *)
Definition rsi_value (avg : num A * num A) : num A :=
  sub A (of_Z A 100) (div A (of_Z A 100) (add A (of_Z A 1) (relative_strength avg))).

Definition rsi_seed (changes : list (num A)) (period : nat) : num A * num A :=
  let sums := fold_left (rsi_initial_step changes) (seq 0 period)
                        (of_Z A 0, of_Z A 0) in
  (div A sums.1 (of_Z A (Z.of_nat period)), div A sums.2 (of_Z A (Z.of_nat period))).

Definition rsi_smooth (changes : list (num A)) (period : nat)
    (avg : num A * num A) (i : nat) : num A * num A :=
  let change := get_num changes i in
  let gain := if gt A change (of_Z A 0) then change else of_Z A 0 in
  let loss := if lt change (of_Z A 0) then neg A change else of_Z A 0 in
  let count := of_Z A (Z.of_nat period) in
  (div A (add A (mul A avg.1 (sub A count (of_Z A 1))) gain) count,
   div A (add A (mul A avg.2 (sub A count (of_Z A 1))) loss) count).

Definition rsi_step (changes : list (num A)) (period : nat)
    (st : num A * num A * list (cell (num A))) (i : nat) :
    num A * num A * list (cell (num A)) :=
  let avg := rsi_smooth changes period st.1 i in
  (avg, array_set st.2 (i + 1) (Num (rsi_value avg))).

Definition calculateRSI (data : list (num A)) (period : nat) : list (cell (num A)) :=
  let rsi := replicate (length data) Null in
  if (length data <=? period)%nat then rsi
  else
    let changes := changes_of data in
    let avg := rsi_seed changes period in
    let rsi := array_set rsi period (Num (rsi_value avg)) in
    (fold_left (rsi_step changes period)
               (seq period (length changes - period)) (avg, rsi)).2.

End RSI.

Section ATR.

Variable A : arithmetic.

Definition to_number (c : cell (num A)) : num A :=
  match c with
  | Num x => x
  | Null => of_Z A 0
  | Undefined => nan A
  end.

Definition get (arr : list (cell (num A))) (i : nat) : cell (num A) :=
  match arr !! i with
  | Some c => c
  | None => Undefined
  end.

(** [Math.max(high[i] - low[i], Math.abs(high[i] - close[i - 1]),
    Math.abs(low[i] - close[i - 1]))] *)
Definition true_range (high low close : list (num A)) (i : nat) : num A :=
  max A (max A (sub A (get_num A high i) (get_num A low i))
               (abs A (sub A (get_num A high i) (get_num A close (i - 1)))))
        (abs A (sub A (get_num A low i) (get_num A close (i - 1)))).

(** [atr[i] = (atr[i - 1]! * (period - 1) + tr) / period] *)
Definition atr_step (high low close : list (num A)) (period : nat)
    (atr : list (cell (num A))) (i : nat) : list (cell (num A)) :=
  let tr := true_range high low close i in
  let count := of_Z A (Z.of_nat period) in
  array_set A atr i
    (Num (div A (add A (mul A (to_number (get atr (i - 1)))
                              (sub A count (of_Z A 1))) tr)
                count)).

Definition calculateATR (high low close : list (num A)) (period : nat) :
    list (cell (num A)) :=
  let atr := replicate (length high) Null in
  if (length high <? period)%nat then atr
  else
    let tr_sum :=
      fold_left (fun s i => add A s (true_range high low close i))
                (seq 1 period) (of_Z A 0) in
    let atr := array_set A atr period
                 (Num (div A tr_sum (of_Z A (Z.of_nat period)))) in
    fold_left (atr_step high low close period)
              (seq (period + 1) (length high - (period + 1))) atr.

End ATR.

(** *** Binary64

    The numbers of JavaScript; an integer is rounded to the nearest
    double.  [Math.max] is [NaN] as soon as one argument is, and takes
    [+0] for larger than [-0]. *)
Definition max64 (a b : PrimFloat.float) : PrimFloat.float :=
  if PrimFloat.is_nan a || PrimFloat.is_nan b then PrimFloat.nan
  else if PrimFloat.ltb a b then b
  else if PrimFloat.ltb b a then a
  else match PrimFloat.classify a with
       | FloatClass.NZero => b
       | _ => a
       end.

Definition binary64 : arithmetic :=
  {| num := PrimFloat.float;
     of_Z z := FloatOps.SF2Prim
                 (SpecFloat.binary_normalize FloatOps.prec FloatOps.emax z 0 false);
     nan := PrimFloat.nan;
     add := PrimFloat.add;
     sub := PrimFloat.sub;
     mul := PrimFloat.mul;
     div := PrimFloat.div;
     neg := PrimFloat.opp;
     abs := PrimFloat.abs;
     max := max64;
     gt a b := PrimFloat.ltb b a;
     le := PrimFloat.leb;
     is_nan := PrimFloat.is_nan |}.

(** *** Exact arithmetic

    The numbers of the indicator library above. *)
Definition exact : arithmetic :=
  {| num := number;
     of_Z z := Fin (inject_Z z);
     nan := NaN;
     add := num_add;
     sub := num_sub;
     mul := num_mul;
     div := num_div;
     neg := num_neg;
     abs := num_abs;
     max := num_max;
     gt := num_gt;
     le a b := match a, b with
               | Fin x, Fin y => Qle_bool x y
               | _, _ => false
               end;
     is_nan a := match a with NaN => true | Fin _ => false end |}.

(** *** Exact operations followed by a rounding

    A value is a rational, an infinity or [NaN].  Each operation is the
    IEEE-754 one: on two rationals the exact result, rounded by [rnd], which
    may overflow to an infinity; on the infinities and [NaN] the result the
    standard gives.  The sign of zero is not kept: a zero divisor counts as
    [+0], which is the only zero divisor the program can meet (a period of
    [0]; the average loss is tested [> 0] before it divides). *)
Inductive rnum : Type :=
  | Rat (q : Q)
  | PInf
  | NInf
  | RNaN.

Definition rneg (a : rnum) : rnum :=
  match a with
  | Rat x => Rat (- x)
  | PInf => NInf
  | NInf => PInf
  | RNaN => RNaN
  end.

Definition radd (rnd : Q -> rnum) (a b : rnum) : rnum :=
  match a, b with
  | RNaN, _ | _, RNaN => RNaN
  | Rat x, Rat y => rnd (x + y)
  | PInf, NInf | NInf, PInf => RNaN
  | PInf, _ | _, PInf => PInf
  | NInf, _ | _, NInf => NInf
  end.

Definition rsub (rnd : Q -> rnum) (a b : rnum) : rnum := radd rnd a (rneg b).

(** An infinity times, or divided by, a rational of the sign of [x]. *)
Definition scaled_inf (positive : bool) (x : Q) : rnum :=
  match x ?= 0 with
  | Eq => RNaN
  | Gt => if positive then PInf else NInf
  | Lt => if positive then NInf else PInf
  end.

Definition rmul (rnd : Q -> rnum) (a b : rnum) : rnum :=
  match a, b with
  | RNaN, _ | _, RNaN => RNaN
  | Rat x, Rat y => rnd (x * y)
  | Rat x, PInf | PInf, Rat x => scaled_inf true x
  | Rat x, NInf | NInf, Rat x => scaled_inf false x
  | PInf, PInf | NInf, NInf => PInf
  | PInf, NInf | NInf, PInf => NInf
  end.

Definition rdiv (rnd : Q -> rnum) (a b : rnum) : rnum :=
  match a, b with
  | RNaN, _ | _, RNaN => RNaN
  | Rat x, Rat y => if Qeq_bool y 0 then scaled_inf true x else rnd (x / y)
  | Rat _, (PInf | NInf) => Rat 0
  | PInf, Rat y => if Qle_bool 0 y then PInf else NInf
  | NInf, Rat y => if Qle_bool 0 y then NInf else PInf
  | (PInf | NInf), (PInf | NInf) => RNaN
  end.

Definition rle (a b : rnum) : bool :=
  match a, b with
  | RNaN, _ | _, RNaN => false
  | NInf, _ => true
  | _, PInf => true
  | Rat x, Rat y => Qle_bool x y
  | _, _ => false
  end.

Definition rabs (a : rnum) : rnum :=
  match a with
  | Rat x => Rat (Qabs x)
  | PInf | NInf => PInf
  | RNaN => RNaN
  end.

Definition rmax (a b : rnum) : rnum :=
  match a, b with
  | RNaN, _ | _, RNaN => RNaN
  | _, _ => if rle a b then b else a
  end.

Definition rgt (a b : rnum) : bool :=
  match a, b with
  | RNaN, _ | _, RNaN => false
  | Rat x, Rat y => Qlt_bool y x
  | PInf, PInf | NInf, _ | Rat _, PInf => false
  | PInf, _ | Rat _, NInf => true
  end.

Definition rounded (rnd : Q -> rnum) : arithmetic :=
  {| num := rnum;
     of_Z z := rnd (inject_Z z);
     nan := RNaN;
     add := radd rnd;
     sub := rsub rnd;
     mul := rmul rnd;
     div := rdiv rnd;
     neg := rneg;
     abs := rabs;
     max := rmax;
     gt := rgt;
     le := rle;
     is_nan a := match a with RNaN => true | _ => false end |}.

(** A rounding that keeps every rational below [bound] in absolute value
    and sends the others to the infinity of their sign; [saturating]
    overflows where binary64 does. *)
Definition saturating_at (bound : Q) (q : Q) : rnum :=
  if Qle_bool bound q then PInf
  else if Qle_bool q (- bound) then NInf
  else Rat (Qred q).

Definition saturating : Q -> rnum := saturating_at (inject_Z (2 ^ 1024)).

End Rounded.

(** * Vocabulary of the properties *)

Close Scope Q_scope.

(** An EMA of [period] has a value at [i] from index [period - 1] on, and
    nowhere for a period of [0]. *)
Definition ema_warm (period i : nat) : bool :=
  (1 <=? period)%nat && (period - 1 <=? i)%nat.

(** A cell that holds a number when [warm], and [Null] otherwise. *)
Definition cell_at (warm : bool) (c : cell) : Prop :=
  if warm then exists x, c = Num x else c = Null.

(** The first index at which both EMAs have a value. *)
Definition macd_start (fastPeriod slowPeriod len : nat) : nat :=
  if (1 <=? fastPeriod)%nat && (1 <=? slowPeriod)%nat
  then Nat.min (Nat.max fastPeriod slowPeriod - 1) len
  else len.

(** The value [atr_step] writes at [i] from the previous value [prev]. *)
Definition atr_next (high low close : list number) (period : nat)
    (prev : number) (i : nat) : number :=
  num_div (num_add (num_mul prev (num_sub (num_of_nat period) (Fin 1)))
                   (true_range high low close i))
          (num_of_nat period).

(** Sixteen closes, each one higher than the one before. *)
Definition rising_closes : list number :=
  (fun z => Fin (inject_Z z))
    <$> [100; 101; 102; 103; 104; 105; 106; 107; 108; 109; 110; 111; 112;
         113; 114; 115]%Z.

(** A well-formed signal: the reasoning is not empty, the identifier is
    built from the direction and the timestamp, and the three price levels
    are there exactly when the direction is not [HOLD]. *)
Definition well_formed (s : Signal) : Prop :=
  reasoning s <> []
  /\ id s = signal_id (direction s) (timestamp s)
  /\ match direction s with
     | HOLD => entryPrice s = None /\ stopLoss s = None /\ takeProfit s = None
     | _ => is_Some (entryPrice s) /\ is_Some (stopLoss s) /\ is_Some (takeProfit s)
     end.

(** A series of [n] bars closing at 100. *)
Definition flat_bars (n : nat) : list MarketData :=
  replicate n (mkMarketData 1700000000000 (Fin 100) (Fin 101) (Fin 99) (Fin 100) (Fin 0)).

(** 190 flat bars followed by ten bars that rise with small pull-backs. *)
Definition buy_bars : list MarketData :=
  flat_bars 190 ++
  ((fun z : Z => mkMarketData 1700000000000 (Fin (inject_Z z)) (Fin (inject_Z (z + 1)))
                   (Fin (inject_Z (z - 1))) (Fin (inject_Z z)) (Fin 0))
     <$> [102; 101; 103; 102; 104; 103; 105; 104; 106; 108]%Z).

(** 190 flat bars followed by ten bars that fall with small bounces. *)
Definition sell_bars : list MarketData :=
  flat_bars 190 ++
  ((fun z : Z => mkMarketData 1700000000000 (Fin (inject_Z z)) (Fin (inject_Z (z + 1)))
                   (Fin (inject_Z (z - 1))) (Fin (inject_Z z)) (Fin 0))
     <$> [98; 99; 97; 98; 96; 97; 95; 96; 94; 92]%Z).

(** [a > b] and [a < b] as propositions on two values: both are numbers
    (neither is [NaN]) and the first is the larger, respectively the
    smaller. *)
Definition above (a b : number) : Prop :=
  exists x y, a = Fin x /\ b = Fin y /\ (y < x)%Q.

Definition below (a b : number) : Prop := above b a.

(** The conjunctions [analyzeData] tests for BUY and for SELL. *)
Definition buy_conditions (price : number) (l : Latest) : bool :=
  isUptrend l && isPriceActionBullish price l && isMacdBullish l && isRsiBullish l.

Definition sell_conditions (price : number) (l : Latest) : bool :=
  isDowntrend l && isPriceActionBearish price l && isMacdBearish l && isRsiBearish l.

(** No value of the series is lower than the one before it. *)
Definition never_falls (data : list number) : bool :=
  forallb (fun i => negb (num_lt (get_num data (i + 1)) (get_num data i)))
          (seq 0 (length data - 1)).

(** An average loss that is [0], or [NaN]. *)
Definition loss_zero (l : number) : Prop :=
  l = NaN \/ exists q, l = Fin q /\ (q == 0)%Q.

(** 200 bars, each closing one above the bar before. *)
Definition rising_bars : list MarketData :=
  (fun i : nat =>
     let z := (100 + Z.of_nat i)%Z in
     mkMarketData 1700000000000 (Fin (inject_Z z)) (Fin (inject_Z (z + 1)))
                  (Fin (inject_Z (z - 1))) (Fin (inject_Z z)) (Fin 0))
    <$> seq 0 200.

(** [(x - prevEma) * multiplier + prevEma], the value [ema_loop] pushes
    past the seed. *)
Definition ema_next (multiplier x prevEma : number) : number :=
  num_add (num_mul (num_sub x prevEma) multiplier) prevEma.

(** The cell [ema_loop] pushes at index [i] and the [prevEma] it goes on
    with. *)
Definition ema_head (multiplier : number) (period : nat) (sma : list cell)
    (i : nat) (prevEma : cell) (x : number) : cell * cell :=
  if (Z.of_nat i <? Z.of_nat period - 1)%Z then (Null, prevEma)
  else if (Z.of_nat i =? Z.of_nat period - 1)%Z then (get sma i, get sma i)
  else if not_null prevEma then
    (Num (ema_next multiplier x (to_number prevEma)),
     Num (ema_next multiplier x (to_number prevEma)))
  else (Null, prevEma).

(** A cell of the RSI over exact arithmetic, as a cell of the indicator
    library. *)
Definition to_cell (c : Rounded.cell number) : cell :=
  match c with
  | Rounded.Undefined => Undefined
  | Rounded.Null => Null
  | Rounded.Num x => Num x
  end.

(** A value that is [>= 0]; a value that is [>= 0] or [NaN]; a value of the
    closed interval [0, 100] or [NaN]. *)
Definition at_least_zero (A : Rounded.arithmetic) (x : Rounded.num A) : Prop :=
  Rounded.le A (Rounded.of_Z A 0) x = true.

Definition at_least_zero_or_NaN (A : Rounded.arithmetic) (x : Rounded.num A) : Prop :=
  at_least_zero A x \/ Rounded.is_nan A x = true.

Definition in_0_100_or_NaN (A : Rounded.arithmetic) (x : Rounded.num A) : Prop :=
  Rounded.is_nan A x = true
  \/ (Rounded.le A (Rounded.of_Z A 0) x = true
      /\ Rounded.le A x (Rounded.of_Z A 100) = true).

(** The facts of IEEE-754 arithmetic that the range of the RSI rests on:
    sums, products and quotients of values that are [>= 0] or [NaN] are
    [>= 0] or [NaN]; [NaN] goes through the operations and fails every
    comparison; [0 / 0] is [NaN]; rounding keeps [1 + r >= 1] for
    [r >= 0], [0 <= 100 / y <= 100] for [y >= 1] and [0 <= 100 - z <= 100]
    for [0 <= z <= 100]. *)
Record ieee (A : Rounded.arithmetic) : Prop := mk_ieee {
  ieee_zero : at_least_zero A (Rounded.of_Z A 0);
  ieee_gt_zero : forall x,
    Rounded.gt A x (Rounded.of_Z A 0) = true -> at_least_zero A x;
  ieee_gt_NaN : forall x y,
    Rounded.is_nan A x = true -> Rounded.gt A x y = false;
  ieee_add : forall a b,
    at_least_zero_or_NaN A a -> at_least_zero_or_NaN A b ->
    at_least_zero_or_NaN A (Rounded.add A a b);
  ieee_mul : forall a b,
    at_least_zero_or_NaN A a -> at_least_zero_or_NaN A b ->
    at_least_zero_or_NaN A (Rounded.mul A a b);
  ieee_div : forall a b,
    at_least_zero_or_NaN A a -> Rounded.gt A b (Rounded.of_Z A 0) = true ->
    at_least_zero_or_NaN A (Rounded.div A a b);
  ieee_div_count : forall a (n : nat),
    at_least_zero_or_NaN A a ->
    at_least_zero_or_NaN A (Rounded.div A a (Rounded.of_Z A (Z.of_nat n)));
  ieee_pred_count : forall n : nat,
    at_least_zero_or_NaN A
      (Rounded.sub A (Rounded.of_Z A (Z.of_nat (S n))) (Rounded.of_Z A 1));
  ieee_zero_div_zero :
    Rounded.is_nan A (Rounded.div A (Rounded.of_Z A 0) (Rounded.of_Z A 0)) = true;
  ieee_NaN_add_l : forall a b,
    Rounded.is_nan A a = true -> Rounded.is_nan A (Rounded.add A a b) = true;
  ieee_NaN_mul_l : forall a b,
    Rounded.is_nan A a = true -> Rounded.is_nan A (Rounded.mul A a b) = true;
  ieee_NaN_div_l : forall a b,
    Rounded.is_nan A a = true -> Rounded.is_nan A (Rounded.div A a b) = true;
  ieee_NaN_add_r : forall a b,
    Rounded.is_nan A b = true -> Rounded.is_nan A (Rounded.add A a b) = true;
  ieee_NaN_div_r : forall a b,
    Rounded.is_nan A b = true -> Rounded.is_nan A (Rounded.div A a b) = true;
  ieee_NaN_sub_r : forall a b,
    Rounded.is_nan A b = true -> Rounded.is_nan A (Rounded.sub A a b) = true;
  ieee_one_add : forall r,
    at_least_zero A r ->
    Rounded.le A (Rounded.of_Z A 1) (Rounded.add A (Rounded.of_Z A 1) r) = true;
  ieee_hundred_div : forall y,
    Rounded.le A (Rounded.of_Z A 1) y = true ->
    at_least_zero A (Rounded.div A (Rounded.of_Z A 100) y)
    /\ Rounded.le A (Rounded.div A (Rounded.of_Z A 100) y) (Rounded.of_Z A 100) = true;
  ieee_hundred_sub : forall z,
    at_least_zero A z -> Rounded.le A z (Rounded.of_Z A 100) = true ->
    at_least_zero A (Rounded.sub A (Rounded.of_Z A 100) z)
    /\ Rounded.le A (Rounded.sub A (Rounded.of_Z A 100) z) (Rounded.of_Z A 100) = true
}.

(** A rounding of the rationals, as IEEE-754 defines them: monotone, and
    exact on [0], [1] and [100], which binary64 represents. *)
Record rounding (rnd : Q -> Rounded.rnum) : Prop := mk_rounding {
  rounding_monotone : forall x y : Q,
    (x <= y)%Q -> Rounded.rle (rnd x) (rnd y) = true;
  rounding_0 : rnd 0%Q = Rounded.Rat 0;
  rounding_1 : rnd 1%Q = Rounded.Rat 1;
  rounding_100 : rnd 100%Q = Rounded.Rat 100
}.

(** The period of the RSI decides what the loops keep true of
    [(avgGain, avgLoss)]: for a period of [0] the average loss is [NaN], for
    any other the average gain is [>= 0] or [NaN]. *)
Definition rsi_averages_ok (A : Rounded.arithmetic) (period : nat)
    (avg : Rounded.num A * Rounded.num A) : Prop :=
  match period with
  | O => Rounded.is_nan A avg.2 = true
  | S _ => at_least_zero_or_NaN A avg.1
  end.

(** Four closes, in integers, whose changes overflow binary64. *)
Definition overflow_closes : list Z := [0; 2 ^ 1023; - 2 ^ 1023; 2 ^ 1023]%Z.

(** The facts of IEEE-754 arithmetic on [Math.abs], [Math.max] and the
    value read outside an array: an absolute value is [>= 0] or [NaN]; so
    is a maximum as soon as its second argument is. *)
Record ieee_max_abs (A : Rounded.arithmetic) : Prop := mk_ieee_max_abs {
  ieee_abs : forall a, at_least_zero_or_NaN A (Rounded.abs A a);
  ieee_max_r : forall a b,
    at_least_zero_or_NaN A b -> at_least_zero_or_NaN A (Rounded.max A a b);
  ieee_nan : Rounded.is_nan A (Rounded.nan A) = true
}.

(** An array whose numbers are all [>= 0] or [NaN]. *)
Definition cells_at_least_zero_or_NaN (A : Rounded.arithmetic)
    (arr : list (Rounded.cell (Rounded.num A))) : Prop :=
  forall j x, arr !! j = Some (Rounded.Num x) -> at_least_zero_or_NaN A x.

(** Three bars, in integers, whose true range overflows binary64. *)
Definition overflow_high : list Z := [0; 2 ^ 1023; 1]%Z.
Definition overflow_low : list Z := [0; - 2 ^ 1023; 0]%Z.
Definition overflow_close : list Z := [0; 0; 0]%Z.

(** * Properties *)

(** ** Arrays *)

Lemma length_array_set (arr : list cell) (i : nat) (v : cell) :
  length (array_set arr i v) = Nat.max (length arr) (i + 1).
Proof.
  unfold array_set. destruct (Nat.ltb_spec i (length arr)).
  - rewrite length_insert. lia.
  - rewrite !length_app, length_replicate. simpl. lia.
Qed.

Lemma get_array_set_eq (arr : list cell) (i : nat) (v : cell) :
  get (array_set arr i v) i = v.
Proof.
  unfold get, array_set. destruct (Nat.ltb_spec i (length arr)).
  - by rewrite list_lookup_insert_eq.
  - rewrite lookup_app_r by lia.
    rewrite lookup_app_r; rewrite length_replicate; [|lia].
    by replace (i - length arr - (i - length arr))%nat with 0%nat by lia.
Qed.

Lemma get_array_set_ne (arr : list cell) (i j : nat) (v : cell) :
  i <> j -> get (array_set arr i v) j = get arr j.
Proof.
  intros Hij. unfold get, array_set. destruct (Nat.ltb_spec i (length arr)).
  - by rewrite list_lookup_insert_ne.
  - destruct (Nat.lt_ge_cases j (length arr)) as [Hj|Hj].
    + by rewrite lookup_app_l.
    + rewrite (lookup_ge_None_2 arr j) by lia.
      rewrite lookup_app_r by lia.
      destruct (Nat.lt_ge_cases j i) as [Hji|Hji].
      * rewrite lookup_app_l by (rewrite length_replicate; lia).
        rewrite lookup_replicate_2; [done | lia].
      * rewrite lookup_app_r; rewrite length_replicate; [|lia].
        rewrite lookup_ge_None_2; [done | simpl; lia].
Qed.

Lemma get_lookup (arr : list cell) (i : nat) :
  (i < length arr)%nat -> arr !! i = Some (get arr i).
Proof.
  intros Hi. unfold get. destruct (lookup_lt_is_Some_2 arr i Hi) as [c Hc].
  by rewrite Hc.
Qed.

Lemma get_replicate (n i : nat) (c : cell) :
  (i < n)%nat -> get (replicate n c) i = c.
Proof. intros Hi. unfold get. by rewrite lookup_replicate_2. Qed.

Lemma get_fmap_seq (f : nat -> cell) (n i : nat) :
  (i < n)%nat -> get (f <$> seq 0 n) i = f i.
Proof.
  intros Hi. unfold get. rewrite list_lookup_fmap, lookup_seq_lt by done. done.
Qed.

(** ** Lengths of the indicator series *)

Lemma length_calculateSMA (data : list number) (period : nat) :
  length (calculateSMA data period) = length data.
Proof. unfold calculateSMA. by rewrite length_fmap, length_seq. Qed.

Lemma length_ema_loop m period sma (rest : list number) :
  forall i prevEma, length (ema_loop m period sma i prevEma rest) = length rest.
Proof.
  induction rest as [|x rest IH]; intros i prevEma; simpl; [done|].
  repeat case_match; simpl; by rewrite IH.
Qed.

Lemma length_calculateEMA (data : list number) (period : nat) :
  length (calculateEMA data period) = length data.
Proof. apply length_ema_loop. Qed.

Lemma length_macd_line (data : list number) (fastPeriod slowPeriod : nat) :
  length (macd_line data fastPeriod slowPeriod) = length data.
Proof. unfold macd_line. by rewrite length_fmap, length_seq. Qed.

Lemma length_valid_numbers (arr : list cell) :
  (length (valid_numbers arr) <= length arr)%nat.
Proof. unfold valid_numbers. rewrite length_fmap. apply length_filter. Qed.

(** [Array(n)] is never given a negative length: [calculateMACD] completes
    normally, with the record the source builds. *)
Lemma calculateMACD_normal (data : list number) (fastPeriod slowPeriod signalPeriod : nat) :
  let line := macd_line data fastPeriod slowPeriod in
  let valid := valid_numbers line in
  let signal := replicate (length data - length valid) Null
                  ++ calculateEMA valid signalPeriod in
  calculateMACD data fastPeriod slowPeriod signalPeriod
  = Normal (mkMACD line signal (diff_at line signal <$> seq 0 (length data))).
Proof.
  intros line valid signal. unfold calculateMACD, js_Array.
  fold line. fold valid.
  assert (Hle : (length valid <= length data)%nat).
  { unfold valid. etrans; [apply length_valid_numbers|].
    unfold line. by rewrite length_macd_line. }
  destruct (Z.ltb_spec (Z.of_nat (length data) - Z.of_nat (length valid)) 0); [lia|].
  simpl. unfold fill. rewrite fmap_replicate.
  replace (Z.to_nat (Z.of_nat (length data) - Z.of_nat (length valid)))
    with (length data - length valid)%nat by lia.
  done.
Qed.

(** ** Where the EMA is defined *)

Lemma get_calculateSMA (data : list number) (period i : nat) :
  (i < length data)%nat -> get (calculateSMA data period) i = sma_at data period i.
Proof. apply get_fmap_seq. Qed.

Lemma ema_loop_get m period sma (rest : list number) :
  forall i prevEma,
    (forall j, (j + 1)%nat = period -> (i <= j < i + length rest)%nat ->
               exists x, get sma j = Num x) ->
    ((period <= i)%nat ->
     if (period =? 0)%nat then prevEma = Null else exists x, prevEma = Num x) ->
    forall j, (j < length rest)%nat ->
      cell_at (ema_warm period (i + j)) (get (ema_loop m period sma i prevEma rest) j).
Proof.
  induction rest as [|x rest IH]; intros i prevEma Hsma Hprev j Hj; simpl in Hj; [lia|].
  simpl.
  destruct (Z.ltb_spec (Z.of_nat i) (Z.of_nat period - 1)) as [Hlt|Hge].
  { destruct j as [|j].
    - unfold get; simpl. unfold ema_warm.
      replace (period - 1 <=? i + 0)%nat with false; [by rewrite andb_false_r|].
      symmetry. apply Nat.leb_gt. lia.
    - change (get (Null :: ?l) (S j)) with (get l j).
      replace (i + S j)%nat with (S i + j)%nat by lia.
      apply IH; [| intros; lia | lia].
      intros k Hk1 Hk2. apply Hsma; [done | simpl; lia]. }
  destruct (Z.eqb_spec (Z.of_nat i) (Z.of_nat period - 1)) as [Heq|Hne].
  { destruct (Hsma i) as [s Hs]; [lia | simpl; lia |].
    destruct j as [|j].
    - unfold get at 1; simpl. unfold ema_warm.
      replace (1 <=? period)%nat with true by (symmetry; apply Nat.leb_le; lia).
      replace (period - 1 <=? i + 0)%nat with true by (symmetry; apply Nat.leb_le; lia).
      simpl. eauto.
    - change (get (?c :: ?l) (S j)) with (get l j).
      replace (i + S j)%nat with (S i + j)%nat by lia.
      apply IH; [intros; lia | | lia].
      intros _. destruct (Nat.eqb_spec period 0); [lia | eauto]. }
  assert (Hi : (period <= i)%nat) by lia.
  specialize (Hprev Hi).
  destruct (Nat.eqb_spec period 0) as [H0|H0].
  - subst prevEma. simpl.
    destruct j as [|j].
    + unfold get; simpl. unfold ema_warm.
      by replace (1 <=? period)%nat with false by (symmetry; apply Nat.leb_gt; lia).
    + change (get (?c :: ?l) (S j)) with (get l j).
      replace (i + S j)%nat with (S i + j)%nat by lia.
      apply IH; [intros; lia | | lia].
      intros _. by destruct (Nat.eqb_spec period 0).
  - destruct Hprev as [p ->]. simpl.
    destruct j as [|j].
    + unfold get; simpl. unfold ema_warm.
      replace (1 <=? period)%nat with true by (symmetry; apply Nat.leb_le; lia).
      replace (period - 1 <=? i + 0)%nat with true by (symmetry; apply Nat.leb_le; lia).
      simpl. eauto.
    + change (get (?c :: ?l) (S j)) with (get l j).
      replace (i + S j)%nat with (S i + j)%nat by lia.
      apply IH; [intros; lia | | lia].
      intros _. destruct (Nat.eqb_spec period 0); [lia | eauto].
Qed.

Lemma calculateEMA_get (data : list number) (period i : nat) :
  (i < length data)%nat ->
  cell_at (ema_warm period i) (get (calculateEMA data period) i).
Proof.
  intros Hi. unfold calculateEMA.
  apply (ema_loop_get _ period _ data 0 Null); [| | done].
  - intros j Hj1 Hj2. rewrite get_calculateSMA by lia.
    unfold sma_at. destruct (Z.ltb_spec (Z.of_nat j) (Z.of_nat period - 1)); [lia|].
    eauto.
  - intros Hp. replace period with 0%nat by lia. done.
Qed.

Lemma cell_at_defined (warm : bool) (c : cell) :
  cell_at warm c -> is_defined c = warm.
Proof. destruct warm; simpl; [intros [x ->] | intros ->]; done. Qed.

Lemma calculateEMA_is_defined (data : list number) (period i : nat) :
  (i < length data)%nat ->
  is_defined (get (calculateEMA data period) i) = ema_warm period i.
Proof. intros Hi. by apply cell_at_defined, calculateEMA_get. Qed.

(** A series that is [Null] before index [k] and a number from [k] on. *)
Lemma null_prefix_shape (l : list cell) (k : nat) :
  (k <= length l)%nat ->
  (forall i, (i < length l)%nat -> cell_at (k <=? i)%nat (get l i)) ->
  l = replicate k Null ++ (Num <$> (to_number <$> drop k l)).
Proof.
  intros Hk Hcells. apply list_eq. intros i.
  destruct (Nat.lt_ge_cases i (length l)) as [Hi|Hi].
  2:{ rewrite lookup_ge_None_2 by lia. symmetry. apply lookup_ge_None_2.
      rewrite length_app, length_replicate, !length_fmap, length_drop. lia. }
  rewrite get_lookup by done. specialize (Hcells i Hi).
  destruct (Nat.leb_spec k i) as [Hki|Hki]; simpl in Hcells.
  - destruct Hcells as [x Hx].
    rewrite lookup_app_r; rewrite length_replicate; [|lia].
    rewrite !list_lookup_fmap, lookup_drop.
    replace (k + (i - k))%nat with i by lia.
    rewrite get_lookup by done. simpl. by rewrite Hx.
  - rewrite lookup_app_l by (rewrite length_replicate; lia).
    rewrite lookup_replicate_2 by done. by rewrite Hcells.
Qed.

(** The EMA is [k] nulls followed by numbers. *)
Lemma calculateEMA_shape (data : list number) (period : nat) :
  let k := if (1 <=? period)%nat then Nat.min (period - 1) (length data)
           else length data in
  exists values : list number,
    calculateEMA data period = replicate k Null ++ (Num <$> values).
Proof.
  intros k. eexists. apply null_prefix_shape.
  - rewrite length_calculateEMA. subst k. case_match; lia.
  - intros i Hi. rewrite length_calculateEMA in Hi.
    replace (k <=? i)%nat with (ema_warm period i);
      [by apply calculateEMA_get|].
    unfold ema_warm. subst k.
    destruct (Nat.leb_spec 1 period), (Nat.leb_spec (period - 1) i); simpl;
      symmetry; try (apply Nat.leb_le; lia); apply Nat.leb_gt; lia.
Qed.

Lemma valid_numbers_null_prefix (k : nat) (values : list number) :
  valid_numbers (replicate k Null ++ (Num <$> values)) = values.
Proof.
  unfold valid_numbers. rewrite filter_app.
  assert (Hnull : filter (fun c => Is_true (not_null c)) (replicate k Null) = []).
  { induction k as [|k IH]; [done|]. simpl. rewrite filter_cons_False; [done|].
    simpl. tauto. }
  assert (Hnum : filter (fun c => Is_true (not_null c)) (Num <$> values)
                 = Num <$> values).
  { induction values as [|x values IH]; [done|]. rewrite fmap_cons.
    rewrite filter_cons_True by done. by rewrite IH. }
  rewrite Hnull, Hnum. simpl. rewrite <- list_fmap_compose. clear Hnull Hnum.
  induction values as [|x values IH]; [done|]. rewrite fmap_cons. simpl.
  by rewrite IH.
Qed.

(** ** The MACD line and its signal line *)

Lemma macd_line_get (data : list number) (fastPeriod slowPeriod i : nat) :
  (i < length data)%nat ->
  cell_at (macd_start fastPeriod slowPeriod (length data) <=? i)%nat
          (get (macd_line data fastPeriod slowPeriod) i).
Proof.
  intros Hi. unfold macd_line. rewrite get_fmap_seq by done.
  pose proof (calculateEMA_get data fastPeriod i Hi) as Hf.
  pose proof (calculateEMA_get data slowPeriod i Hi) as Hs.
  assert (Hk : (macd_start fastPeriod slowPeriod (length data) <=? i)%nat
               = ema_warm fastPeriod i && ema_warm slowPeriod i).
  { unfold macd_start, ema_warm.
    destruct (Nat.leb_spec 1 fastPeriod), (Nat.leb_spec 1 slowPeriod),
      (Nat.leb_spec (fastPeriod - 1) i), (Nat.leb_spec (slowPeriod - 1) i);
      simpl; try (apply Nat.leb_le; lia); apply Nat.leb_gt; lia. }
  rewrite Hk. unfold diff_at.
  destruct (ema_warm fastPeriod i); simpl in Hf.
  - destruct Hf as [f ->]. destruct (ema_warm slowPeriod i); simpl in Hs.
    + destruct Hs as [s ->]. simpl. eauto.
    + rewrite Hs. done.
  - rewrite Hf. done.
Qed.

Lemma macd_start_le (fastPeriod slowPeriod len : nat) :
  (macd_start fastPeriod slowPeriod len <= len)%nat.
Proof. unfold macd_start. case_match; lia. Qed.

Lemma macd_line_shape (data : list number) (fastPeriod slowPeriod : nat) :
  let k := macd_start fastPeriod slowPeriod (length data) in
  let suffix := to_number <$> drop k (macd_line data fastPeriod slowPeriod) in
  macd_line data fastPeriod slowPeriod = replicate k Null ++ (Num <$> suffix)
  /\ valid_numbers (macd_line data fastPeriod slowPeriod) = suffix
  /\ (k + length suffix)%nat = length data.
Proof.
  intros k suffix.
  assert (Hshape : macd_line data fastPeriod slowPeriod
                   = replicate k Null ++ (Num <$> suffix)).
  { apply null_prefix_shape.
    - rewrite length_macd_line. apply macd_start_le.
    - intros i Hi. rewrite length_macd_line in Hi. by apply macd_line_get. }
  split; [done|]. split.
  - rewrite Hshape at 1. apply valid_numbers_null_prefix.
  - unfold suffix. rewrite length_fmap, length_drop, length_macd_line.
    pose proof (macd_start_le fastPeriod slowPeriod (length data)). lia.
Qed.

(** ** The RSI loop *)

Lemma length_changes_of (data : list number) :
  length (changes_of data) = (length data - 1)%nat.
Proof. unfold changes_of. by rewrite length_drop, length_imap. Qed.

(** The main loop of [calculateRSI] after [k] turns: the averages are the
    smoothed ones, the array keeps its length, and the cells written are
    those of indices [period + 1] to [period + k]. *)
Lemma rsi_fold (changes : list number) (period : nat) (avg0 : number * number)
    (rsi0 : list cell) (k : nat) :
  (period + k < length rsi0)%nat ->
  let r := fold_left (rsi_step changes period) (seq period k) (avg0, rsi0) in
  r.1 = fold_left (rsi_smooth changes period) (seq period k) avg0
  /\ length r.2 = length rsi0
  /\ forall j, get r.2 j =
       if (period <? j)%nat && (j <=? period + k)%nat
       then Num (rsi_value (fold_left (rsi_smooth changes period)
                                      (seq period (j - period)) avg0))
       else get rsi0 j.
Proof.
  induction k as [|k IH]; intros Hlen r.
  - subst r. simpl. repeat split. intros j.
    destruct (Nat.ltb_spec period j); simpl; [|done].
    by replace (j <=? period + 0)%nat with false by (symmetry; apply Nat.leb_gt; lia).
  - subst r. rewrite seq_S, !fold_left_app. simpl.
    destruct IH as (Havg & Hl & Hget); [lia|].
    set (r := fold_left (rsi_step changes period) (seq period k) (avg0, rsi0)) in *.
    rewrite Havg. repeat split.
    + rewrite length_array_set, Hl. lia.
    + intros j. destruct (Nat.eq_dec j (period + k + 1)) as [->|Hj].
      * rewrite get_array_set_eq.
        replace (period <? period + k + 1)%nat with true
          by (symmetry; apply Nat.ltb_lt; lia).
        replace (period + k + 1 <=? period + S k)%nat with true
          by (symmetry; apply Nat.leb_le; lia).
        simpl. replace (period + k + 1 - period)%nat with (S k) by lia.
        by rewrite seq_S, fold_left_app.
      * rewrite get_array_set_ne by lia. rewrite Hget.
        destruct (Nat.ltb_spec period j); simpl; [|done].
        destruct (Nat.leb_spec j (period + k)).
        -- by replace (j <=? period + S k)%nat with true
             by (symmetry; apply Nat.leb_le; lia).
        -- by replace (j <=? period + S k)%nat with false
             by (symmetry; apply Nat.leb_gt; lia).
Qed.

Lemma length_calculateRSI (data : list number) (period : nat) :
  length (calculateRSI data period) = length data.
Proof.
  unfold calculateRSI. destruct (Nat.leb_spec (length data) period) as [Hle|Hgt].
  - by rewrite length_replicate.
  - set (rsi0 := array_set _ period _).
    assert (Hl0 : length rsi0 = length data).
    { unfold rsi0. rewrite length_array_set, length_replicate. lia. }
    edestruct (rsi_fold (changes_of data) period (rsi_seed (changes_of data) period)
                 rsi0 (length (changes_of data) - period)) as (_ & Hl & _).
    + rewrite length_changes_of, Hl0. lia.
    + by rewrite Hl.
Qed.

(** Every cell of the RSI series: [Null] before index [period] and when the
    series is no longer than [period]; from [period] on, the value computed
    from the running averages. *)
Lemma calculateRSI_get (data : list number) (period j : nat) :
  (j < length data)%nat ->
  get (calculateRSI data period) j =
    if (period <=? j)%nat then Num (rsi_value (rsi_avg data period (j - period)))
    else Null.
Proof.
  intros Hj. unfold calculateRSI.
  destruct (Nat.leb_spec (length data) period) as [Hle|Hgt].
  { rewrite get_replicate by done.
    by replace (period <=? j)%nat with false by (symmetry; apply Nat.leb_gt; lia). }
  set (rsi0 := array_set _ period _).
  assert (Hl0 : length rsi0 = length data).
  { unfold rsi0. rewrite length_array_set, length_replicate. lia. }
  edestruct (rsi_fold (changes_of data) period (rsi_seed (changes_of data) period)
               rsi0 (length (changes_of data) - period)) as (_ & _ & Hget).
  { rewrite length_changes_of, Hl0. lia. }
  rewrite Hget. rewrite length_changes_of.
  destruct (Nat.ltb_spec period j) as [Hpj|Hpj]; simpl.
  - replace (j <=? period + (length data - 1 - period))%nat with true
      by (symmetry; apply Nat.leb_le; lia).
    by replace (period <=? j)%nat with true by (symmetry; apply Nat.leb_le; lia).
  - destruct (Nat.eq_dec j period) as [->|Hne].
    + unfold rsi0. rewrite get_array_set_eq.
      replace (period <=? period)%nat with true by (symmetry; apply Nat.leb_le; lia).
      by replace (period - period)%nat with 0%nat by lia.
    + unfold rsi0. rewrite get_array_set_ne by lia.
      rewrite get_replicate by done.
      by replace (period <=? j)%nat with false by (symmetry; apply Nat.leb_gt; lia).
Qed.

(** ** Arithmetic on [number] *)

Lemma Qlt_bool_iff (x y : Q) : Qlt_bool x y = true <-> (x < y)%Q.
Proof.
  unfold Qlt_bool. rewrite negb_true_iff. split.
  - intros H. apply Qnot_le_lt. intros Hle. apply Qle_bool_iff in Hle. congruence.
  - intros H. destruct (Qle_bool y x) eqn:E; [|done].
    apply Qle_bool_iff in E. apply Qlt_not_le in H. contradiction.
Qed.

(** ** The RSI formula without losses *)

Lemma rsi_value_no_loss (avg : number * number) :
  num_gt avg.2 (Fin 0) = false ->
  relative_strength avg = Fin 0 /\ rsi_value avg = Fin 0.
Proof.
  intros H. unfold rsi_value, relative_strength. rewrite H. split; [done|].
  vm_compute. done.
Qed.

(** ** Loop invariants *)

Lemma fold_left_invariant {A B} (P : A -> Prop) (f : A -> B -> A) (l : list B) :
  (forall a b, P a -> P (f a b)) -> forall a, P a -> P (fold_left f l a).
Proof.
  intros Hstep. induction l as [|b l IH]; intros a Ha; simpl; [done|].
  apply IH. by apply Hstep.
Qed.

(** ** The ATR loop *)

(** The main loop of [calculateATR] after [k] turns, for a property [P] of
    the seed that one turn preserves. *)
Lemma atr_fold (P : number -> Prop) (high low close : list number)
    (period : nat) (atr0 : list cell) (k : nat) :
  (period + k < length atr0)%nat ->
  (exists x, get atr0 period = Num x /\ P x) ->
  (forall i x, (period < i <= period + k)%nat -> P x ->
               P (atr_next high low close period x i)) ->
  let r := fold_left (atr_step high low close period) (seq (period + 1) k) atr0 in
  length r = length atr0
  /\ (forall j, (period <= j <= period + k)%nat -> exists x, get r j = Num x /\ P x)
  /\ (forall j, ~ (period < j <= period + k)%nat -> get r j = get atr0 j).
Proof.
  induction k as [|k IH]; intros Hlen Hseed Hstep r.
  - subst r. simpl. split; [done|]. split; [|done].
    intros j Hj. by replace j with period by lia.
  - subst r. rewrite seq_S, fold_left_app. simpl.
    destruct IH as (Hl & Hin & Hout); [lia | done | intros; apply Hstep; [lia|done] |].
    set (r := fold_left (atr_step high low close period) (seq (period + 1) k) atr0) in *.
    unfold atr_step. replace (period + 1 + k - 1)%nat with (period + k)%nat by lia.
    destruct (Hin (period + k)%nat) as (prev & Hprev & HP); [lia|].
    rewrite Hprev. simpl. fold (atr_next high low close period prev (period + 1 + k)).
    repeat split.
    + rewrite length_array_set, Hl. lia.
    + intros j Hj. destruct (Nat.eq_dec j (period + 1 + k)) as [->|Hne].
      * rewrite get_array_set_eq. eexists. split; [done|]. apply Hstep; [lia|done].
      * rewrite get_array_set_ne by lia. apply Hin. lia.
    + intros j Hj. rewrite get_array_set_ne by lia. apply Hout. lia.
Qed.

(** The series [calculateATR] returns is as long as the input, except for an
    input of exactly [period] bars: the seed is then written one past the
    end and the series is one longer. *)
Lemma length_calculateATR (high low close : list number) (period : nat) :
  length (calculateATR high low close period) =
    if (length high =? period)%nat then (period + 1)%nat else length high.
Proof.
  unfold calculateATR. destruct (Nat.ltb_spec (length high) period) as [Hlt|Hge].
  { rewrite length_replicate.
    by replace (length high =? period)%nat with false
      by (symmetry; apply Nat.eqb_neq; lia). }
  set (seed := Num _). set (atr0 := array_set _ period seed).
  assert (Hl0 : length atr0 = Nat.max (length high) (period + 1)).
  { unfold atr0. by rewrite length_array_set, length_replicate. }
  edestruct (atr_fold (fun _ => True) high low close period atr0
               (length high - (period + 1))) as (Hl & _ & _).
  - rewrite Hl0. lia.
  - unfold atr0, seed. rewrite get_array_set_eq. eauto.
  - done.
  - rewrite Hl, Hl0. destruct (Nat.eqb_spec (length high) period); lia.
Qed.

(** With more than [period] bars, every cell from index [period] on holds a
    number, and the cells before are [Null]. *)
Lemma calculateATR_get (P : number -> Prop) (high low close : list number)
    (period j : nat) :
  (period < length high)%nat ->
  P (num_div (fold_left (fun s i => num_add s (true_range high low close i))
                        (seq 1 period) (Fin 0)) (num_of_nat period)) ->
  (forall i x, (period < i < length high)%nat -> P x ->
               P (atr_next high low close period x i)) ->
  (j < length high)%nat ->
  if (period <=? j)%nat
  then exists x, get (calculateATR high low close period) j = Num x /\ P x
  else get (calculateATR high low close period) j = Null.
Proof.
  intros Hlen Hseed Hstep Hj. unfold calculateATR.
  destruct (Nat.ltb_spec (length high) period) as [Hlt|_]; [lia|].
  set (seed := Num _). set (atr0 := array_set _ period seed).
  edestruct (atr_fold P high low close period atr0
               (length high - (period + 1))) as (_ & Hin & Hout).
  - unfold atr0. rewrite length_array_set, length_replicate. lia.
  - unfold atr0, seed. rewrite get_array_set_eq. eauto.
  - intros i x Hi. apply Hstep. lia.
  - destruct (Nat.leb_spec period j) as [Hpj|Hpj].
    + apply Hin. lia.
    + rewrite Hout by lia. unfold atr0. rewrite get_array_set_ne by lia.
      by apply get_replicate.
Qed.

(** ** The range of the RSI over a rounded arithmetic *)

Section RSI_range.

Import Rounded.

Variable A : arithmetic.
Hypothesis HA : ieee A.

Lemma array_set_lookup (arr : list (cell (num A))) (i j : nat) (v c : cell (num A)) :
  array_set A arr i v !! j = Some c ->
  c = v \/ c = Undefined \/ arr !! j = Some c.
Proof.
  unfold array_set. destruct (Nat.ltb_spec i (length arr)) as [Hlt|Hge].
  - intros H. apply list_lookup_insert_Some in H as [(_ & -> & _) | (_ & H)]; auto.
  - intros H. apply lookup_app_Some in H as [H | (_ & H)]; [auto|].
    apply lookup_app_Some in H as [H | (_ & H)].
    + apply lookup_replicate in H as [-> _]. auto.
    + apply list_lookup_singleton_Some in H as [_ ->]. auto.
Qed.

Lemma at_least_zero_gain (change : num A) :
  at_least_zero_or_NaN A (if gt A change (of_Z A 0) then change else of_Z A 0).
Proof.
  left. destruct (gt A change (of_Z A 0)) eqn:E.
  - by apply (ieee_gt_zero A HA).
  - apply (ieee_zero A HA).
Qed.

Lemma rsi_initial_sum (changes : list (num A)) (indices : list nat)
    (acc : num A * num A) :
  at_least_zero_or_NaN A acc.1 ->
  at_least_zero_or_NaN A (fold_left (rsi_initial_step A changes) indices acc).1.
Proof.
  revert acc. induction indices as [|i indices IH]; intros acc Hacc; [done|].
  simpl. apply IH. unfold rsi_initial_step.
  destruct (gt A (get_num A changes i) (of_Z A 0)) eqn:E; simpl; [|done].
  apply (ieee_add A HA); [done|]. left. by apply (ieee_gt_zero A HA).
Qed.

Lemma rsi_seed_averages (changes : list (num A)) (period : nat) :
  rsi_averages_ok A period (rsi_seed A changes period).
Proof.
  destruct period as [|n]; unfold rsi_averages_ok, rsi_seed.
  - simpl. apply (ieee_zero_div_zero A HA).
  - cbv zeta. cbn [fst]. apply (ieee_div_count A HA).
    apply rsi_initial_sum. cbn [fst]. left. apply (ieee_zero A HA).
Qed.

Lemma rsi_smooth_averages (changes : list (num A)) (period : nat)
    (avg : num A * num A) (i : nat) :
  rsi_averages_ok A period avg ->
  rsi_averages_ok A period (rsi_smooth A changes period avg i).
Proof.
  destruct period as [|n]; unfold rsi_averages_ok, rsi_smooth; cbv zeta;
    cbn [fst snd]; intros Havg.
  - apply (ieee_NaN_div_l A HA), (ieee_NaN_add_l A HA), (ieee_NaN_mul_l A HA), Havg.
  - apply (ieee_div_count A HA), (ieee_add A HA); [|apply at_least_zero_gain].
    apply (ieee_mul A HA); [done|]. apply (ieee_pred_count A HA).
Qed.

Lemma relative_strength_ok (period : nat) (avg : num A * num A) :
  rsi_averages_ok A period avg ->
  at_least_zero_or_NaN A (relative_strength A avg).
Proof.
  intros Havg. unfold relative_strength.
  destruct (gt A avg.2 (of_Z A 0)) eqn:E; [|left; apply (ieee_zero A HA)].
  apply (ieee_div A HA); [|done].
  destruct period as [|n]; [|done]. simpl in Havg.
  by rewrite (ieee_gt_NaN A HA _ _ Havg) in E.
Qed.

Lemma rsi_value_ok (period : nat) (avg : num A * num A) :
  rsi_averages_ok A period avg -> in_0_100_or_NaN A (rsi_value A avg).
Proof.
  intros Havg. unfold rsi_value.
  destruct (relative_strength_ok period avg Havg) as [Hrs|Hrs].
  - right. apply (ieee_hundred_sub A HA);
      apply (ieee_hundred_div A HA), (ieee_one_add A HA), Hrs.
  - left. apply (ieee_NaN_sub_r A HA), (ieee_NaN_div_r A HA), (ieee_NaN_add_r A HA), Hrs.
Qed.

Lemma calculateRSI_ok (data : list (num A)) (period i : nat) (v : num A) :
  calculateRSI A data period !! i = Some (Num v) -> in_0_100_or_NaN A v.
Proof.
  unfold calculateRSI. destruct (length data <=? period)%nat.
  { intros H. by apply lookup_replicate in H as [? _]. }
  cbv zeta.
  set (P := fun st : num A * num A * list (cell (num A)) =>
              rsi_averages_ok A period st.1
              /\ forall j x, st.2 !! j = Some (Num x) -> in_0_100_or_NaN A x).
  assert (HP : P (fold_left (rsi_step A (changes_of A data) period)
                    (seq period (length (changes_of A data) - period))
                    (rsi_seed A (changes_of A data) period,
                     array_set A (replicate (length data) Null) period
                       (Num (rsi_value A (rsi_seed A (changes_of A data) period)))))).
  { apply fold_left_invariant.
    - intros st k [Havg Hcells]. unfold rsi_step. split; cbn [fst snd].
      + by apply rsi_smooth_averages.
      + intros j x Hx. apply array_set_lookup in Hx as [Hx | [Hx | Hx]]; [|done|eauto].
        injection Hx as ->. apply (rsi_value_ok period). by apply rsi_smooth_averages.
    - split; cbn [fst snd]; [apply rsi_seed_averages|].
      intros j x Hx. apply array_set_lookup in Hx as [Hx | [Hx | Hx]]; [|done|].
      + injection Hx as ->. apply (rsi_value_ok period), rsi_seed_averages.
      + by apply lookup_replicate in Hx as [? _]. }
  intros H. by apply (proj2 HP i v).
Qed.

End RSI_range.

(** *** Exact operations followed by a rounding *)

Section Rounded_ieee.

Import Rounded.

Variable rnd : Q -> rnum.
Hypothesis Hrnd : rounding rnd.

Lemma rnd_at_least_zero (q : Q) : (0 <= q)%Q -> rle (Rat 0) (rnd q) = true.
Proof.
  intros Hq. rewrite <- (rounding_0 rnd Hrnd). by apply (rounding_monotone rnd Hrnd).
Qed.

Lemma rnd_at_least_one (q : Q) : (1 <= q)%Q -> rle (Rat 1) (rnd q) = true.
Proof.
  intros Hq. rewrite <- (rounding_1 rnd Hrnd). by apply (rounding_monotone rnd Hrnd).
Qed.

Lemma rnd_at_most_100 (q : Q) : (q <= 100)%Q -> rle (rnd q) (Rat 100) = true.
Proof.
  intros Hq. rewrite <- (rounding_100 rnd Hrnd). by apply (rounding_monotone rnd Hrnd).
Qed.

Lemma at_least_zero_rounded (a : rnum) :
  at_least_zero (rounded rnd) a <-> a = PInf \/ exists q, a = Rat q /\ (0 <= q)%Q.
Proof.
  unfold at_least_zero. simpl. change (inject_Z 0) with 0%Q.
  rewrite (rounding_0 rnd Hrnd). destruct a as [q| | |]; simpl.
  - rewrite Qle_bool_iff. split.
    + intros H. right. by exists q.
    + intros [H | (q' & H & Hq)]; [done|]. by injection H as ->.
  - split; [by left | done].
  - split; [done | by intros [H | (q' & H & _)]].
  - split; [done | by intros [H | (q' & H & _)]].
Qed.

Lemma ok_rounded (a : rnum) :
  at_least_zero_or_NaN (rounded rnd) a <->
  a = RNaN \/ a = PInf \/ exists q, a = Rat q /\ (0 <= q)%Q.
Proof.
  unfold at_least_zero_or_NaN. rewrite at_least_zero_rounded. simpl.
  destruct a; split; intros H; try tauto; try (by right); try (by left);
    destruct H as [H | H]; try done; auto.
Qed.

Lemma ok_rnd (q : Q) : (0 <= q)%Q -> at_least_zero_or_NaN (rounded rnd) (rnd q).
Proof.
  intros Hq. left. unfold at_least_zero. simpl. change (inject_Z 0) with 0%Q.
  rewrite (rounding_0 rnd Hrnd). by apply rnd_at_least_zero.
Qed.

Lemma scaled_inf_ok (x : Q) :
  (0 <= x)%Q -> at_least_zero_or_NaN (rounded rnd) (scaled_inf true x).
Proof.
  intros Hx. apply ok_rounded. unfold scaled_inf.
  destruct (x ?= 0)%Q eqn:E; auto.
  apply Qlt_alt in E. exfalso. by apply (Qlt_not_le x 0).
Qed.

Lemma count_at_least_zero (n : nat) : (0 <= inject_Z (Z.of_nat n))%Q.
Proof. change 0%Q with (inject_Z 0). rewrite <- Zle_Qle. lia. Qed.

Lemma rounded_ieee : ieee (rounded rnd).
Proof.
  split.
  - apply at_least_zero_rounded. right. exists 0%Q. simpl.
    change (inject_Z 0) with 0%Q. by rewrite (rounding_0 rnd Hrnd).
  - intros x. simpl. change (inject_Z 0) with 0%Q. rewrite (rounding_0 rnd Hrnd).
    intros H. apply at_least_zero_rounded. destruct x as [q| | |]; simpl in H; try done.
    + right. exists q. split; [done|]. apply Qlt_bool_iff in H. by apply Qlt_le_weak.
    + by left.
  - intros x y. simpl. by destruct x.
  - intros a b Ha Hb. apply ok_rounded in Ha, Hb.
    destruct Ha as [-> | [-> | (x & -> & Hx)]];
      destruct Hb as [-> | [-> | (y & -> & Hy)]]; simpl;
      try (apply ok_rounded; auto; fail).
    apply ok_rnd. lra.
  - intros a b Ha Hb. apply ok_rounded in Ha, Hb.
    destruct Ha as [-> | [-> | (x & -> & Hx)]];
      destruct Hb as [-> | [-> | (y & -> & Hy)]]; simpl;
      try (apply ok_rounded; auto; fail); try by apply scaled_inf_ok.
    apply ok_rnd. by apply Qmult_le_0_compat.
  - intros a b Ha. simpl. change (inject_Z 0) with 0%Q. rewrite (rounding_0 rnd Hrnd).
    intros Hb. apply ok_rounded in Ha.
    destruct b as [y| | |]; simpl in Hb; try done.
    + apply Qlt_bool_iff in Hb.
      destruct Ha as [-> | [-> | (x & -> & Hx)]]; simpl.
      * apply ok_rounded; auto.
      * replace (Qle_bool 0 y) with true
          by (symmetry; by apply Qle_bool_iff, Qlt_le_weak).
        apply ok_rounded; auto.
      * replace (Qeq_bool y 0) with false.
        -- apply ok_rnd. apply Qle_shift_div_l; [done|]. by rewrite Qmult_0_l.
        -- symmetry. apply not_true_iff_false. intros H. apply Qeq_bool_iff in H.
           rewrite H in Hb. by apply (Qlt_irrefl 0).
    + destruct Ha as [-> | [-> | (x & -> & Hx)]]; simpl; apply ok_rounded; auto.
      right. right. by exists 0%Q.
  - intros a n Ha. apply ok_rounded in Ha. simpl.
    pose proof (rounding_monotone rnd Hrnd _ _ (count_at_least_zero n)) as Hn.
    rewrite (rounding_0 rnd Hrnd) in Hn.
    destruct (rnd (inject_Z (Z.of_nat n))) as [y| | |]; simpl in Hn; try done.
    + apply Qle_bool_iff in Hn.
      destruct Ha as [-> | [-> | (x & -> & Hx)]]; simpl.
      * apply ok_rounded; auto.
      * replace (Qle_bool 0 y) with true by (symmetry; by apply Qle_bool_iff).
        apply ok_rounded; auto.
      * destruct (Qeq_bool y 0) eqn:E; [by apply scaled_inf_ok|].
        apply ok_rnd. apply Qle_shift_div_l; [|by rewrite Qmult_0_l].
        apply Qle_lteq in Hn as [Hn | Hn]; [done|].
        symmetry in Hn. apply Qeq_bool_iff in Hn. congruence.
    + destruct Ha as [-> | [-> | (x & -> & Hx)]]; simpl; apply ok_rounded; auto.
      right. right. by exists 0%Q.
  - intros n. simpl. change (inject_Z 1) with 1%Q. rewrite (rounding_1 rnd Hrnd).
    assert (Hn : (1 <= inject_Z (Z.of_nat (S n)))%Q).
    { change 1%Q with (inject_Z 1). rewrite <- Zle_Qle. lia. }
    pose proof (rounding_monotone rnd Hrnd _ _ Hn) as Hle.
    rewrite (rounding_1 rnd Hrnd) in Hle. unfold rsub.
    destruct (rnd (inject_Z (Z.of_nat (S n)))) as [y| | |]; simpl in Hle; try done.
    + simpl. apply ok_rnd. apply Qle_bool_iff in Hle. lra.
    + simpl. apply ok_rounded; auto.
  - simpl. change (inject_Z 0) with 0%Q. by rewrite (rounding_0 rnd Hrnd).
  - intros a b. simpl. by destruct a.
  - intros a b. simpl. by destruct a.
  - intros a b. simpl. by destruct a.
  - intros a b. simpl. by destruct a, b.
  - intros a b. simpl. by destruct a, b.
  - intros a b. simpl. unfold rsub. by destruct a, b.
  - intros r Hr. apply at_least_zero_rounded in Hr. simpl.
    change (inject_Z 1) with 1%Q. rewrite (rounding_1 rnd Hrnd).
    destruct Hr as [-> | (q & -> & Hq)]; simpl; [done|].
    apply rnd_at_least_one. lra.
  - intros y. simpl. change (inject_Z 1) with 1%Q. change (inject_Z 100) with 100%Q.
    rewrite (rounding_1 rnd Hrnd), (rounding_100 rnd Hrnd).
    intros Hy. rewrite at_least_zero_rounded.
    destruct y as [q| | |]; simpl in Hy; try done; simpl.
    + apply Qle_bool_iff in Hy.
      replace (Qeq_bool q 0) with false.
      * assert (H0 : (0 <= 100 / q)%Q).
        { apply Qle_shift_div_l; lra. }
        assert (H100 : (100 / q <= 100)%Q).
        { apply Qle_shift_div_r; lra. }
        split; [|by apply rnd_at_most_100].
        pose proof (rnd_at_least_zero _ H0) as H.
        destruct (rnd (100 / q)) as [z| | |]; simpl in H; try done; [|by left].
        right. exists z. split; [done|]. by apply Qle_bool_iff.
      * symmetry. apply not_true_iff_false. intros H. apply Qeq_bool_iff in H. lra.
    + split; [|done]. right. by exists 0%Q.
  - intros z Hz. simpl. change (inject_Z 100) with 100%Q.
    rewrite (rounding_100 rnd Hrnd). intros H100.
    apply at_least_zero_rounded in Hz. rewrite at_least_zero_rounded.
    destruct Hz as [-> | (q & -> & Hq)]; [done|]. simpl in H100.
    apply Qle_bool_iff in H100. unfold rsub. simpl.
    assert (H0 : (0 <= 100 + - q)%Q) by lra.
    assert (H1 : (100 + - q <= 100)%Q) by lra.
    split; [|by apply rnd_at_most_100].
    pose proof (rnd_at_least_zero _ H0) as H.
    destruct (rnd (100 + - q)) as [y| | |]; simpl in H; try done; [|by left].
    right. exists y. split; [done|]. by apply Qle_bool_iff.
Qed.

End Rounded_ieee.

(** *** The RSI over exact arithmetic *)

Lemma to_cell_array_set (arr : list (Rounded.cell number)) (i : nat)
    (v : Rounded.cell number) :
  to_cell <$> Rounded.array_set Rounded.exact arr i v
  = array_set (to_cell <$> arr) i (to_cell v).
Proof.
  unfold Rounded.array_set, array_set. cbn [Rounded.num Rounded.exact].
  rewrite length_fmap.
  destruct (i <? length arr)%nat.
  - apply list_fmap_insert.
  - by rewrite !fmap_app, fmap_replicate.
Qed.

Lemma rsi_fold_exact (changes : list number) (period : nat) (indices : list nat)
    (avg : number * number) (arr : list (Rounded.cell number)) :
  let st := fold_left (Rounded.rsi_step Rounded.exact changes period) indices
                      (avg, arr) in
  fold_left (rsi_step changes period) indices (avg, to_cell <$> arr)
  = (st.1, to_cell <$> st.2).
Proof.
  revert avg arr. induction indices as [|i indices IH]; intros avg arr; [done|].
  cbn [fold_left]. unfold rsi_step at 2, Rounded.rsi_step at 2. cbn [fst snd].
  rewrite <- IH. f_equal. f_equal. by rewrite to_cell_array_set.
Qed.

(** Read at exact arithmetic, the RSI over the interface is the
    [calculateRSI] of the indicator library. *)
Lemma calculateRSI_exact (data : list number) (period : nat) :
  to_cell <$> Rounded.calculateRSI Rounded.exact data period
  = calculateRSI data period.
Proof.
  unfold Rounded.calculateRSI, calculateRSI. cbn [Rounded.num Rounded.exact].
  destruct (length data <=? period)%nat; [by rewrite fmap_replicate|].
  cbv zeta.
  change (Rounded.changes_of Rounded.exact data) with (changes_of data).
  change (Rounded.rsi_seed Rounded.exact (changes_of data) period)
    with (rsi_seed (changes_of data) period).
  pose proof (rsi_fold_exact (changes_of data) period
                (seq period (length (changes_of data) - period))
                (rsi_seed (changes_of data) period)
                (Rounded.array_set Rounded.exact (replicate (length data) Rounded.Null)
                   period
                   (Rounded.Num (Rounded.rsi_value Rounded.exact
                                   (rsi_seed (changes_of data) period))))) as H.
  cbv zeta in H. rewrite to_cell_array_set, fmap_replicate in H.
  cbn [to_cell] in H.
  change (Rounded.rsi_value Rounded.exact (rsi_seed (changes_of data) period))
    with (rsi_value (rsi_seed (changes_of data) period)) in H.
  by rewrite H.
Qed.

(** *** The claim about the range *)

Lemma saturating_at_rounding (bound : Q) :
  (100 < bound)%Q -> rounding (Rounded.saturating_at bound).
Proof.
  intros Hb.
  assert (Hsmall : forall q, (0 <= q)%Q -> (q <= 100)%Q ->
            Rounded.saturating_at bound q = Rounded.Rat (Qred q)).
  { intros q H0 H100. unfold Rounded.saturating_at.
    destruct (Qle_bool bound q) eqn:E1; [apply Qle_bool_iff in E1; lra|].
    destruct (Qle_bool q (- bound)) eqn:E2; [apply Qle_bool_iff in E2; lra|].
    reflexivity. }
  split; [|apply Hsmall; lra..].
  intros x y Hxy. unfold Rounded.saturating_at.
  destruct (Qle_bool bound x) eqn:Ex.
  { apply Qle_bool_iff in Ex.
    replace (Qle_bool bound y) with true; [reflexivity|].
    symmetry. apply Qle_bool_iff. lra. }
  destruct (Qle_bool x (- bound)) eqn:Ex'.
  { destruct (Qle_bool bound y); [reflexivity|].
    destruct (Qle_bool y (- bound)); reflexivity. }
  destruct (Qle_bool bound y) eqn:Ey; [reflexivity|].
  destruct (Qle_bool y (- bound)) eqn:Ey'.
  { apply Qle_bool_iff in Ey'. apply not_true_iff_false in Ex'.
    exfalso. apply Ex', Qle_bool_iff. lra. }
  cbn [Rounded.rle]. apply Qle_bool_iff. rewrite !Qred_correct. exact Hxy.
Qed.

Lemma saturating_rounding : rounding Rounded.saturating.
Proof. apply saturating_at_rounding. vm_compute. reflexivity. Qed.




(** ** The sign of the ATR over a rounded arithmetic *)

Section ATR_sign.

Import Rounded.

Variable A : arithmetic.
Hypothesis HA : ieee A.
Hypothesis HM : ieee_max_abs A.

Lemma true_range_ok (high low close : list (num A)) (i : nat) :
  at_least_zero_or_NaN A (true_range A high low close i).
Proof. unfold true_range. apply (ieee_max_r A HM), (ieee_abs A HM). Qed.

Lemma to_number_ok (arr : list (cell (num A))) (i : nat) :
  cells_at_least_zero_or_NaN A arr ->
  at_least_zero_or_NaN A (to_number A (get A arr i)).
Proof.
  intros Harr. unfold get. destruct (arr !! i) as [[| |x]|] eqn:E; simpl.
  - right. apply (ieee_nan A HM).
  - left. apply (ieee_zero A HA).
  - by apply (Harr i).
  - right. apply (ieee_nan A HM).
Qed.

Lemma array_set_ok (arr : list (cell (num A))) (i : nat) (v : num A) :
  cells_at_least_zero_or_NaN A arr -> at_least_zero_or_NaN A v ->
  cells_at_least_zero_or_NaN A (array_set A arr i (Num v)).
Proof.
  intros Harr Hv j x Hx.
  apply array_set_lookup in Hx as [Hx | [Hx | Hx]]; [|done|by apply (Harr j)].
  by injection Hx as ->.
Qed.

Lemma atr_step_ok (high low close : list (num A)) (period : nat)
    (atr : list (cell (num A))) (i : nat) :
  (1 <= period)%nat ->
  cells_at_least_zero_or_NaN A atr ->
  cells_at_least_zero_or_NaN A (atr_step A high low close period atr i).
Proof.
  intros Hp Hatr. unfold atr_step. cbv zeta. apply array_set_ok; [done|].
  apply (ieee_div_count A HA), (ieee_add A HA); [|apply true_range_ok].
  apply (ieee_mul A HA); [by apply to_number_ok|].
  destruct period as [|n]; [lia|]. apply (ieee_pred_count A HA).
Qed.

Lemma calculateATR_ok (high low close : list (num A)) (period : nat) :
  (1 <= period)%nat ->
  cells_at_least_zero_or_NaN A (calculateATR A high low close period).
Proof.
  intros Hp. unfold calculateATR.
  assert (Hnull : cells_at_least_zero_or_NaN A (replicate (length high) Null)).
  { intros j x Hx. by apply lookup_replicate in Hx as [? _]. }
  destruct (length high <? period)%nat; [done|]. cbv zeta.
  apply fold_left_invariant.
  - intros atr i Hatr. by apply atr_step_ok.
  - apply array_set_ok; [done|]. apply (ieee_div_count A HA).
    apply fold_left_invariant.
    + intros s i Hs. apply (ieee_add A HA); [done|]. apply true_range_ok.
    + left. apply (ieee_zero A HA).
Qed.

End ATR_sign.

Lemma rounded_ieee_max_abs (rnd : Q -> Rounded.rnum) :
  rounding rnd -> ieee_max_abs (Rounded.rounded rnd).
Proof.
  intros Hrnd. split.
  - intros a. apply ok_rounded; [done|]. destruct a as [x| | |]; simpl; auto.
    right. right. exists (Qabs x). split; [done|]. apply Qabs_nonneg.
  - intros a b Hb. apply ok_rounded in Hb; [|done]. apply ok_rounded; [done|].
    destruct Hb as [-> | [-> | (y & -> & Hy)]].
    + left. by destruct a.
    + destruct a; simpl; auto.
    + destruct a as [x| | |]; simpl; auto.
      * destruct (Qle_bool x y) eqn:E.
        -- right. right. by exists y.
        -- right. right. exists x. split; [done|].
           apply not_true_iff_false in E. rewrite Qle_bool_iff in E.
           apply Qnot_le_lt in E. apply Qlt_le_weak. by apply Qle_lt_trans with y.
      * right. right. by exists y.
  - done.
Qed.

(** X11: over exact operations followed by any rounding that is monotone
    and exact on 0, 1 and 100, for every period of at least 1 and all three
    series a value of [calculateATR] is [NaN] or [>= 0]. *)
Theorem calculateATR_at_least_zero_or_NaN (rnd : Q -> Rounded.rnum)
    (high low close : list Rounded.rnum) (period i : nat) (v : Rounded.rnum) :
  rounding rnd ->
  (1 <= period)%nat ->
  Rounded.calculateATR (Rounded.rounded rnd) high low close period !! i
  = Some (Rounded.Num v) ->
  v = Rounded.RNaN \/ Rounded.rle (Rounded.Rat 0) v = true.
Proof.
  intros Hrnd Hp Hv.
  destruct (calculateATR_ok (Rounded.rounded rnd) (rounded_ieee rnd Hrnd)
              (rounded_ieee_max_abs rnd Hrnd) high low close period Hp i v Hv)
    as [H0 | Hnan].
  - right. unfold at_least_zero in H0. simpl in H0.
    change (inject_Z 0) with 0%Q in H0. by rewrite (rounding_0 rnd Hrnd) in H0.
  - left. by destruct v.
Qed.

Lemma calculateATR_at_least_zero_or_NaN_witness :
  exists v,
    Rounded.calculateATR (Rounded.rounded Rounded.saturating)
      ((fun z => Rounded.Rat (inject_Z z)) <$> overflow_high)
      ((fun z => Rounded.Rat (inject_Z z)) <$> overflow_low)
      ((fun z => Rounded.Rat (inject_Z z)) <$> overflow_close) 1 !! 1%nat
    = Some (Rounded.Num v)
    /\ (v = Rounded.RNaN \/ Rounded.rle (Rounded.Rat 0) v = true).
Proof.
  eexists. split; [vm_compute; reflexivity|].
  apply (calculateATR_at_least_zero_or_NaN Rounded.saturating
           ((fun z => Rounded.Rat (inject_Z z)) <$> overflow_high)
           ((fun z => Rounded.Rat (inject_Z z)) <$> overflow_low)
           ((fun z => Rounded.Rat (inject_Z z)) <$> overflow_close) 1 1).
  - apply saturating_rounding.
  - lia.
  - vm_compute. reflexivity.
Defined.

(** ** The claims about the indicator library *)

Lemma num_eqb_zero_not_gt (a : number) :
  num_eqb a (Fin 0) = true -> num_gt a (Fin 0) = false.
Proof.
  destruct a as [q|]; simpl; [|done]. intros H. apply Qeq_bool_iff in H.
  unfold Qlt_bool. apply negb_false_iff, Qle_bool_iff. rewrite H. apply Qle_refl.
Qed.

(** C1, as the code has it: at every step of the RSI loop where the running
    average loss is exactly 0, the relative strength [rs] is taken to be 0
    and the RSI value written at that index is [100 - 100 / (1 + 0)], that
    is 0. *)
Theorem calculateRSI_zero_loss (data : list number) (period k : nat) :
  (period + k < length data)%nat ->
  num_eqb (rsi_avg data period k).2 (Fin 0) = true ->
  relative_strength (rsi_avg data period k) = Fin 0
  /\ calculateRSI data period !! (period + k)%nat = Some (Num (Fin 0)).
Proof.
  intros Hlen Hzero. apply num_eqb_zero_not_gt in Hzero.
  destruct (rsi_value_no_loss _ Hzero) as [Hrs Hval]. split; [done|].
  rewrite get_lookup by (rewrite length_calculateRSI; lia).
  rewrite calculateRSI_get by lia.
  replace (period <=? period + k)%nat with true by (symmetry; apply Nat.leb_le; lia).
  replace (period + k - period)%nat with k by lia. by rewrite Hval.
Qed.

Lemma calculateRSI_zero_loss_witness :
  relative_strength (rsi_avg rising_closes 14 1) = Fin 0
  /\ calculateRSI rising_closes 14 !! 15%nat = Some (Num (Fin 0)).
Proof.
  apply (calculateRSI_zero_loss rising_closes 14 1); [simpl; lia | reflexivity].
Defined.

(** C1, as the spec states it, fails: on a series that only rises the
    average loss is 0 at index 14 and the RSI written there is 0, not 100. *)
Lemma calculateRSI_zero_loss_is_not_100 :
  num_eqb (rsi_avg rising_closes 14 0).2 (Fin 0) = true
  /\ relative_strength (rsi_avg rising_closes 14 0) = Fin 0
  /\ calculateRSI rising_closes 14 !! 14%nat = Some (Num (Fin 0))
  /\ num_eqb (to_number (get (calculateRSI rising_closes 14) 14)) (Fin 100) = false.
Proof. vm_compute. done. Qed.

(** C7: every position of the EMA before the warm-up index [period - 1] is
    [Null], and once the EMA has a value at [i] it has one at every later
    index of the series. *)
Theorem calculateEMA_defined_monotone (data : list number) (period i : nat) :
  (i < length data)%nat ->
  ((Z.of_nat i < Z.of_nat period - 1)%Z ->
   calculateEMA data period !! i = Some Null)
  /\ (is_defined (get (calculateEMA data period) i) = true ->
      forall j, (i < j < length data)%nat ->
                is_defined (get (calculateEMA data period) j) = true).
Proof.
  intros Hi. split.
  - intros Hwarm. rewrite get_lookup by (rewrite length_calculateEMA; lia).
    pose proof (calculateEMA_get data period i Hi) as Hc. unfold ema_warm in Hc.
    replace (period - 1 <=? i)%nat with false in Hc
      by (symmetry; apply Nat.leb_gt; lia).
    rewrite andb_false_r in Hc. simpl in Hc. by rewrite Hc.
  - rewrite calculateEMA_is_defined by done. intros Hdef j Hj.
    rewrite calculateEMA_is_defined by lia.
    unfold ema_warm in *. apply andb_true_iff in Hdef as [H1 H2].
    rewrite H1. simpl. apply Nat.leb_le. apply Nat.leb_le in H2. lia.
Qed.

Lemma calculateEMA_defined_monotone_witness :
  is_defined (get (calculateEMA [Fin 1; Fin 2; Fin 3; Fin 4] 2) 3) = true.
Proof.
  refine (proj2 (calculateEMA_defined_monotone [Fin 1; Fin 2; Fin 3; Fin 4] 2 1 _)
                _ 3%nat _).
  - simpl. lia.
  - reflexivity.
  - simpl. lia.
Defined.

(** C2, as the code has it: every indicator series has the length of its
    input, except the ATR on exactly [period] bars, which is one longer. *)
Theorem indicator_lengths (data high low close : list number)
    (period fastPeriod slowPeriod signalPeriod : nat) :
  length (calculateSMA data period) = length data
  /\ length (calculateEMA data period) = length data
  /\ (exists m, calculateMACD data fastPeriod slowPeriod signalPeriod = Normal m
                /\ length (macdLine m) = length data
                /\ length (signalLine m) = length data
                /\ length (histogram m) = length data)
  /\ length (calculateRSI data period) = length data
  /\ length (calculateATR high low close period) =
       if (length high =? period)%nat then S (length high) else length high.
Proof.
  split; [apply length_calculateSMA|]. split; [apply length_calculateEMA|].
  split; [| split; [apply length_calculateRSI|]].
  - eexists. split; [apply calculateMACD_normal|]. simpl.
    destruct (macd_line_shape data fastPeriod slowPeriod) as (_ & Hvalid & Hlen).
    rewrite length_macd_line, length_app, length_replicate, length_calculateEMA.
    rewrite length_fmap, length_seq, Hvalid. repeat split. lia.
  - rewrite length_calculateATR.
    destruct (Nat.eqb_spec (length high) period); lia.
Qed.

(** C2 at the default period: fourteen bars give an ATR series of fifteen
    cells. *)
Lemma calculateATR_length_14_bars :
  length (calculateATR (replicate 14 (Fin 100)) (replicate 14 (Fin 99))
                       (replicate 14 (Fin 100)) 14) = 15%nat.
Proof. reflexivity. Qed.

Lemma num_add_NaN (a : number) : num_add a NaN = NaN.
Proof. by destruct a. Qed.

Lemma true_range_past_end (high low close : list number) :
  true_range high low close (length high) = NaN.
Proof.
  unfold true_range, get_num. by rewrite (lookup_ge_None_2 high (length high)).
Qed.

Lemma atr_seed_NaN (high low close : list number) (n : nat) :
  n = length high ->
  num_div (fold_left (fun s i => num_add s (true_range high low close i))
                     (seq 1 n) (Fin 0)) (num_of_nat n) = NaN.
Proof.
  intros Hn. destruct n as [|p]; [by vm_compute|].
  rewrite seq_S, fold_left_app. simpl. rewrite Hn.
  by rewrite true_range_past_end, num_add_NaN.
Qed.

(** C9, as the code has it: on exactly [period] bars the seed of the ATR
    reads [high[period]], which is outside the input, and the value written
    at index [period] is [NaN]. *)
Theorem calculateATR_NaN_at_period (high low close : list number) :
  calculateATR high low close (length high) !! length high = Some (Num NaN).
Proof.
  rewrite get_lookup
    by (rewrite length_calculateATR, Nat.eqb_refl; lia).
  f_equal. unfold calculateATR. rewrite Nat.ltb_irrefl.
  replace (length high - (length high + 1))%nat with 0%nat by lia. simpl.
  rewrite get_array_set_eq. f_equal. by apply atr_seed_NaN.
Qed.

(** C9 at the default period: on fourteen bars the cell at index 14 is
    [NaN], which is not [>= 0]. *)
Lemma calculateATR_NaN_14_bars :
  calculateATR (replicate 14 (Fin 100)) (replicate 14 (Fin 99))
               (replicate 14 (Fin 100)) 14 !! 14%nat = Some (Num NaN).
Proof. reflexivity. Qed.

(** ** The signal line *)

Lemma calculateMACD_shape (data : list number)
    (fastPeriod slowPeriod signalPeriod : nat) :
  exists (m : MACD) (suffix : list number),
    let k := macd_start fastPeriod slowPeriod (length data) in
    calculateMACD data fastPeriod slowPeriod signalPeriod = Normal m
    /\ macdLine m = replicate k Null ++ (Num <$> suffix)
    /\ signalLine m = replicate k Null ++ calculateEMA suffix signalPeriod
    /\ (k + length suffix)%nat = length data
    /\ forall j, (j < length suffix)%nat ->
         is_defined (get (signalLine m) (k + j)) = ema_warm signalPeriod j.
Proof.
  destruct (macd_line_shape data fastPeriod slowPeriod) as (Hshape & Hvalid & Hlen).
  set (k := macd_start fastPeriod slowPeriod (length data)) in *.
  set (suffix := to_number <$> drop k (macd_line data fastPeriod slowPeriod)) in *.
  eexists. exists suffix. simpl.
  split; [apply calculateMACD_normal|]. simpl. rewrite Hvalid.
  replace (length data - length suffix)%nat with k by lia.
  split; [done|]. split; [done|]. split; [done|].
  intros j Hj. rewrite <- (calculateEMA_is_defined suffix signalPeriod j Hj).
  f_equal. unfold get. rewrite lookup_app_r; rewrite length_replicate; [|lia].
  by replace (k + j - k)%nat with j by lia.
Qed.

(** C5: [calculateMACD] completes normally; its MACD line is [k] nulls
    followed by numbers (its defined suffix), and its signal line is the
    same [k] nulls followed by the EMA of those numbers: it is as long as
    the input, and its warm-up is counted from [k], the index where the MACD
    line starts, not from the start of the series. *)
Theorem calculateMACD_signal_line (data : list number)
    (fastPeriod slowPeriod signalPeriod : nat) :
  exists (m : MACD) (suffix : list number),
    let k := macd_start fastPeriod slowPeriod (length data) in
    calculateMACD data fastPeriod slowPeriod signalPeriod = Normal m
    /\ macdLine m = replicate k Null ++ (Num <$> suffix)
    /\ signalLine m = replicate k Null ++ calculateEMA suffix signalPeriod
    /\ length (signalLine m) = length data
    /\ forall j, (j < length suffix)%nat ->
         is_defined (get (signalLine m) (k + j)) = ema_warm signalPeriod j.
Proof.
  destruct (calculateMACD_shape data fastPeriod slowPeriod signalPeriod)
    as (m & suffix & Hm & Hline & Hsignal & Hlen & Hwarm).
  exists m, suffix. simpl. repeat split; try done.
  rewrite Hsignal, length_app, length_replicate, length_calculateEMA. exact Hlen.
Qed.

(** With the periods 12 and 26 on at least 25 closes, the MACD line starts
    at index 25. *)
Lemma macd_start_default (len : nat) :
  (25 <= len)%nat -> macd_start 12 26 len = 25%nat.
Proof.
  intros Hlen. unfold macd_start.
  change ((1 <=? 12)%nat && (1 <=? 26)%nat) with true.
  change (Nat.max 12 26 - 1)%nat with 25%nat. cbv iota. lia.
Qed.

(** ** The signal engine *)

Lemma indicators_of_normal (data : list MarketData) :
  exists ind m,
    indicators_of data = Normal ind
    /\ calculateMACD (close <$> data) 12 26 9 = Normal m
    /\ ind = mkIndicatorData
               (calculateEMA (close <$> data) 50) (calculateEMA (close <$> data) 200)
               (macdLine m) (signalLine m) (histogram m)
               (calculateRSI (close <$> data) 14)
               (calculateATR (high <$> data) (low <$> data) (close <$> data) 14).
Proof.
  unfold indicators_of. rewrite calculateMACD_normal. simpl. by do 2 eexists.
Qed.

Lemma analyzeData_normal (now : Z) (data : list MarketData) (ind : IndicatorData) :
  indicators_of data = Normal ind ->
  analyzeData now data =
    Normal (decide_signal (length data)
              (or_zero ((close <$> data) !! (length data - 1)%nat))
              (timestamp_of now (data !! (length data - 1)%nat)) ind).
Proof. intros Hind. unfold analyzeData. rewrite Hind, length_fmap. done. Qed.

(** With at least 200 bars every value read at the latest index is there. *)
Lemma latest_all_defined (data : list MarketData) (ind : IndicatorData)
    (price : number) :
  (200 <= length data)%nat ->
  indicators_of data = Normal ind ->
  allDataAvailable price (latest_of (length data) ind) = true.
Proof.
  intros Hlen Hind.
  destruct (indicators_of_normal data) as (ind' & m & Hind' & Hm & ->).
  rewrite Hind in Hind'. injection Hind' as ->.
  set (closes := close <$> data) in *.
  assert (Hc : length closes = length data) by apply length_fmap.
  destruct (calculateMACD_shape closes 12 26 9)
    as (m' & suffix & Hm' & Hline & Hsignal & Hk & Hwarm).
  rewrite Hm in Hm'. injection Hm' as <-.
  rewrite macd_start_default in * by lia.
  unfold allDataAvailable, latest_of. simpl.
  rewrite !calculateEMA_is_defined by lia.
  assert (H50 : ema_warm 50 (length data - 1) = true).
  { unfold ema_warm. apply andb_true_iff. split; apply Nat.leb_le; lia. }
  assert (H200 : ema_warm 200 (length data - 1) = true).
  { unfold ema_warm. apply andb_true_iff. split; apply Nat.leb_le; lia. }
  rewrite H50, H200. simpl.
  assert (Hmacd : is_defined (get (macdLine m) (length data - 1)) = true).
  { pose proof (macd_line_get closes 12 26 (length data - 1) ltac:(lia)) as Hg.
    rewrite macd_start_default in Hg by lia.
    replace (25 <=? length data - 1)%nat with true in Hg
      by (symmetry; apply Nat.leb_le; lia).
    destruct Hg as [x Hx].
    rewrite calculateMACD_normal in Hm. injection Hm as <-. simpl. by rewrite Hx. }
  assert (Hsig : is_defined (get (signalLine m) (length data - 1)) = true).
  { replace (length data - 1)%nat with (25 + (length data - 26))%nat by lia.
    rewrite Hwarm by lia.
    unfold ema_warm. apply andb_true_iff. split; apply Nat.leb_le; lia. }
  assert (Hrsi : is_defined (get (calculateRSI closes 14) (length data - 1)) = true).
  { rewrite calculateRSI_get by lia.
    by replace (14 <=? length data - 1)%nat with true
      by (symmetry; apply Nat.leb_le; lia). }
  assert (Hatr : is_defined (get (calculateATR (high <$> data) (low <$> data) closes 14)
                                 (length data - 1)) = true).
  { pose proof (calculateATR_get (fun _ => True) (high <$> data) (low <$> data)
                  closes 14 (length data - 1)) as Hg.
    rewrite length_fmap in Hg.
    replace (14 <=? length data - 1)%nat with true in Hg
      by (symmetry; apply Nat.leb_le; lia).
    destruct Hg as (x & Hx & _); [lia | done | done | lia |]. by rewrite Hx. }
  by rewrite Hmacd, Hsig, Hrsi, Hatr.
Qed.



Lemma num_gt_asym (a b : number) : num_gt a b = true -> num_gt b a = false.
Proof.
  destruct a as [x|], b as [y|]; simpl; try done.
  intros H. apply Qlt_bool_iff in H.
  destruct (Qlt_bool x y) eqn:E; [|done].
  apply Qlt_bool_iff in E. exfalso. apply (Qlt_irrefl x).
  by apply Qlt_trans with y.
Qed.

Lemma decide_signal_warm (len : nat) (price : number) (ts : Z)
    (ind : IndicatorData) :
  (200 <= len)%nat ->
  allDataAvailable price (latest_of len ind) = true ->
  let l := latest_of len ind in
  decide_signal len price ts ind =
    if buy_conditions price l then
      let stop := num_sub price (num_mul (to_number (currentAtr l)) ATR_MULTIPLIER) in
      mkSignal (signal_id BUY ts) ts BUY price (Some price) (Some stop)
        (Some (num_add price (num_mul (num_sub price stop) RISK_REWARD_RATIO)))
        buy_reasoning ind
    else if sell_conditions price l then
      let stop := num_add price (num_mul (to_number (currentAtr l)) ATR_MULTIPLIER) in
      mkSignal (signal_id SELL ts) ts SELL price (Some price) (Some stop)
        (Some (num_sub price (num_mul (num_sub stop price) RISK_REWARD_RATIO)))
        sell_reasoning ind
    else mkSignal (signal_id HOLD ts) ts HOLD price None None None
           [no_confluence] ind.
Proof.
  intros Hlen Hall l. subst l. unfold decide_signal.
  replace (len <? 200)%nat with false by (symmetry; apply Nat.ltb_ge; lia).
  cbv zeta. rewrite Hall. reflexivity.
Qed.

Lemma num_gt_above (a b : number) : num_gt a b = true <-> above a b.
Proof.
  unfold above. destruct a as [x|], b as [y|]; simpl.
  - rewrite Qlt_bool_iff. split.
    + intros H. by exists x, y.
    + intros (x' & y' & Hx & Hy & H). by injection Hx as <-; injection Hy as <-.
  - split; [done | by intros (? & ? & _ & ? & _)].
  - split; [done | by intros (? & ? & ? & _)].
  - split; [done | by intros (? & ? & ? & _)].
Qed.

Lemma num_gt_not_above (a b : number) : num_gt a b = false <-> ~ above a b.
Proof.
  rewrite <- num_gt_above. by destruct (num_gt a b).
Qed.

Lemma is_defined_Num (c : cell) : is_defined c = true -> exists x, c = Num x.
Proof. destruct c; try done. intros _. by eexists. Qed.

(** With at least 200 bars: the values read at the latest index, and the
    signal in terms of the comparisons made on them. *)
Lemma analyzeData_latest (now : Z) (data : list MarketData) :
  (200 <= length data)%nat ->
  let closes := close <$> data in
  let latest := (length data - 1)%nat in
  let price := or_zero (closes !! latest) in
  let ts := timestamp_of now (data !! latest) in
  exists (m : MACD) (ind : IndicatorData) (e50 e200 macd signal r a : number),
    calculateMACD closes 12 26 9 = Normal m
    /\ get (calculateEMA closes 50) latest = Num e50
    /\ get (calculateEMA closes 200) latest = Num e200
    /\ get (macdLine m) latest = Num macd
    /\ get (signalLine m) latest = Num signal
    /\ get (calculateRSI closes 14) latest = Num r
    /\ get (calculateATR (high <$> data) (low <$> data) closes 14) latest = Num a
    /\ analyzeData now data = Normal
         (if num_gt e50 e200 && num_gt price e50
             && (num_gt macd signal && num_gt macd (Fin 0)) && num_gt r (Fin 55)
          then
            let stop := num_sub price (num_mul a (Fin 2)) in
            mkSignal (signal_id BUY ts) ts BUY price (Some price) (Some stop)
              (Some (num_add price (num_mul (num_sub price stop) (Fin (3 # 2)))))
              buy_reasoning ind
          else if num_lt e50 e200 && num_lt price e50
                  && (num_lt macd signal && num_lt macd (Fin 0)) && num_lt r (Fin 45)
          then
            let stop := num_add price (num_mul a (Fin 2)) in
            mkSignal (signal_id SELL ts) ts SELL price (Some price) (Some stop)
              (Some (num_sub price (num_mul (num_sub stop price) (Fin (3 # 2)))))
              sell_reasoning ind
          else mkSignal (signal_id HOLD ts) ts HOLD price None None None
                 [no_confluence] ind).
Proof.
  intros Hlen closes latest price ts.
  destruct (indicators_of_normal data) as (ind & m & Hind & Hm & Heq).
  pose proof (latest_all_defined data ind price Hlen Hind) as Hall.
  pose proof (decide_signal_warm (length data) price ts ind Hlen Hall) as Hdec.
  cbv zeta in Hdec.
  unfold allDataAvailable in Hall. cbn [forallb] in Hall.
  apply andb_prop in Hall as [_ Hall].
  apply andb_prop in Hall as [H50 Hall]. apply andb_prop in Hall as [H200 Hall].
  apply andb_prop in Hall as [Hmacd Hall]. apply andb_prop in Hall as [Hsig Hall].
  apply andb_prop in Hall as [Hrsi Hall]. apply andb_prop in Hall as [Hatr _].
  apply is_defined_Num in H50 as [e50 H50]. apply is_defined_Num in H200 as [e200 H200].
  apply is_defined_Num in Hmacd as [macd Hmacd]. apply is_defined_Num in Hsig as [signal Hsig].
  apply is_defined_Num in Hrsi as [r Hrsi]. apply is_defined_Num in Hatr as [a Hatr].
  unfold buy_conditions, sell_conditions, isUptrend, isPriceActionBullish,
    isMacdBullish, isRsiBullish, isDowntrend, isPriceActionBearish,
    isMacdBearish, isRsiBearish in Hdec.
  rewrite H50, H200, Hmacd, Hsig, Hrsi, Hatr in Hdec. cbn [to_number] in Hdec.
  exists m, ind, e50, e200, macd, signal, r, a.
  rewrite Heq in H50, H200, Hmacd, Hsig, Hrsi, Hatr.
  repeat (split; [done|]).
  rewrite (analyzeData_normal now data ind Hind). f_equal. exact Hdec.
Qed.

(** C3: with at least 200 bars the values read at the latest index (EMA-50,
    EMA-200, MACD line, signal line, RSI, ATR) are all there.  When
    EMA-50 > EMA-200, price > EMA-50, MACD > signal, MACD > 0 and RSI > 55,
    [analyzeData] returns [BUY] with the entry at the current price, the
    stop-loss at entry - ATR * 2, the take-profit at
    entry + (entry - stop-loss) * 1.5 and the four reasoning lines in their
    order; when one of the five comparisons fails the direction is not
    [BUY]. *)
Theorem analyzeData_buy (now : Z) (data : list MarketData) :
  (200 <= length data)%nat ->
  let closes := close <$> data in
  let latest := (length data - 1)%nat in
  let price := or_zero (closes !! latest) in
  exists (m : MACD) (e50 e200 macd signal r a : number) (s : Signal),
    calculateMACD closes 12 26 9 = Normal m
    /\ get (calculateEMA closes 50) latest = Num e50
    /\ get (calculateEMA closes 200) latest = Num e200
    /\ get (macdLine m) latest = Num macd
    /\ get (signalLine m) latest = Num signal
    /\ get (calculateRSI closes 14) latest = Num r
    /\ get (calculateATR (high <$> data) (low <$> data) closes 14) latest = Num a
    /\ analyzeData now data = Normal s
    /\ (above e50 e200 -> above price e50 ->
        above macd signal -> above macd (Fin 0) -> above r (Fin 55) ->
        let stop := num_sub price (num_mul a (Fin 2)) in
        direction s = BUY
        /\ currentPrice s = price
        /\ entryPrice s = Some price
        /\ stopLoss s = Some stop
        /\ takeProfit s =
             Some (num_add price (num_mul (num_sub price stop) (Fin (3 # 2))))
        /\ reasoning s =
             [ "Uptrend Confirmed: EMA (50) is above EMA (200).";
               "Bullish Price Action: Price is trading above the EMA (50).";
               "Bullish Momentum: MACD is positive and above its signal line.";
               "Strong Momentum: RSI is above 55, indicating strong buying pressure."
             ]%string)
    /\ (~ above e50 e200 \/ ~ above price e50 \/ ~ above macd signal
        \/ ~ above macd (Fin 0) \/ ~ above r (Fin 55) ->
        direction s <> BUY).
Proof.
  intros Hlen closes latest price.
  destruct (analyzeData_latest now data Hlen)
    as (m & ind & e50 & e200 & macd & signal & r & a
        & Hm & H50 & H200 & Hmacd & Hsig & Hrsi & Hatr & Hs).
  exists m, e50, e200, macd, signal, r, a. eexists.
  do 7 (split; [eassumption|]). split; [exact Hs|]. clear Hs. fold closes latest price.
  split.
  - intros H1 H2 H3 H4 H5.
    apply num_gt_above in H1, H2, H3, H4, H5. rewrite H1, H2, H3, H4, H5.
    simpl. done.
  - intros Hfail.
    assert (Hconj : num_gt e50 e200 && num_gt price e50
                    && (num_gt macd signal && num_gt macd (Fin 0))
                    && num_gt r (Fin 55) = false).
    { destruct Hfail as [H | [H | [H | [H | H]]]];
        apply num_gt_not_above in H; rewrite H;
        rewrite ?andb_false_r, ?andb_false_l; done. }
    rewrite Hconj. cbv iota. case_match; simpl; discriminate.
Qed.

Lemma analyzeData_buy_witness :
  exists s, analyzeData 0 buy_bars = Normal s
            /\ direction s = BUY /\ entryPrice s = Some (Fin 108)
            /\ length (reasoning s) = 4%nat.
Proof.
  destruct (analyzeData_buy 0 buy_bars)
    as (m & e50 & e200 & macd & signal & r & a & s
        & Hm & H50 & H200 & Hmacd & Hsig & Hrsi & Hatr & Hs & Hbuy & _).
  - vm_compute. lia.
  - vm_compute in Hm. injection Hm as <-.
    vm_compute in H50, H200, Hmacd, Hsig, Hrsi, Hatr.
    injection H50 as <-. injection H200 as <-. injection Hmacd as <-.
    injection Hsig as <-. injection Hrsi as <-. injection Hatr as <-.
    exists s. split; [exact Hs|].
    destruct Hbuy as (Hd & _ & He & _ & _ & Hr);
      try (do 2 eexists; split; [vm_compute; reflexivity|];
           split; [vm_compute; reflexivity|]; vm_compute; reflexivity).
    split; [exact Hd|]. split; [exact He|]. rewrite Hr. reflexivity.
Defined.

Lemma decide_signal_snapshot (len : nat) (price : number) (ts : Z)
    (ind : IndicatorData) :
  let s := decide_signal len price ts ind in
  currentPrice s = price /\ timestamp s = ts /\ indicatorData s = ind.
Proof. unfold decide_signal. by repeat case_match. Qed.

Lemma decide_signal_well_formed (len : nat) (price : number) (ts : Z)
    (ind : IndicatorData) :
  well_formed (decide_signal len price ts ind).
Proof.
  unfold decide_signal, well_formed.
  repeat case_match; simpl; repeat split; try done; by eexists.
Qed.

(** C10: with at least 200 bars every value [analyzeData] reads at the
    latest index is there, and on every input the reasoning is never
    "Indicators are still calculating.". *)
Theorem analyzeData_never_still_calculating (now : Z) (data : list MarketData)
    (s : Signal) :
  analyzeData now data = Normal s ->
  reasoning s <> [still_calculating]
  /\ ((200 <= length data)%nat ->
      allDataAvailable (currentPrice s) (latest_of (length data) (indicatorData s))
      = true).
Proof.
  intros Hs. destruct (indicators_of_normal data) as (ind & m & Hind & _ & _).
  rewrite (analyzeData_normal now data ind Hind) in Hs. injection Hs as <-.
  destruct (decide_signal_snapshot (length data)
              (or_zero ((close <$> data) !! (length data - 1)%nat))
              (timestamp_of now (data !! (length data - 1)%nat)) ind)
    as (Hprice & _ & Hsnap).
  split.
  - unfold decide_signal.
    destruct (Nat.ltb_spec (length data) 200) as [Hlt|Hge]; [done|].
    rewrite latest_all_defined by done. simpl. by repeat case_match.
  - intros Hlen. rewrite Hprice, Hsnap. by apply latest_all_defined.
Qed.

Lemma analyzeData_never_still_calculating_witness :
  exists s, analyzeData 0 (flat_bars 200) = Normal s
            /\ reasoning s <> [still_calculating]
            /\ allDataAvailable (currentPrice s)
                 (latest_of 200 (indicatorData s)) = true.
Proof.
  eexists. split; [vm_compute; reflexivity|].
  edestruct (analyzeData_never_still_calculating 0 (flat_bars 200)) as (Hr & Hd).
  - vm_compute. reflexivity.
  - split; [exact Hr|]. apply Hd. vm_compute. lia.
Defined.

(** C6: on every input [calculateMACD] (the one indicator that could throw)
    and [analyzeData] complete normally, and the signal is well formed; with
    fewer than 200 bars (an empty series included) it is a [HOLD] whose
    reasoning is the one explanatory entry, and a direction other than
    [HOLD] is only returned when every value read at the latest index is
    there. *)
Theorem analyzeData_total (now : Z) (data : list MarketData) :
  (forall closes fastPeriod slowPeriod signalPeriod,
     exists m, calculateMACD closes fastPeriod slowPeriod signalPeriod = Normal m)
  /\ exists s,
       analyzeData now data = Normal s
       /\ well_formed s
       /\ ((length data < 200)%nat ->
           direction s = HOLD /\ reasoning s = [not_enough_data])
       /\ (direction s <> HOLD ->
           allDataAvailable (currentPrice s)
             (latest_of (length data) (indicatorData s)) = true).
Proof.
  split.
  - intros closes fastPeriod slowPeriod signalPeriod. eexists.
    apply calculateMACD_normal.
  - destruct (indicators_of_normal data) as (ind & m & Hind & _ & _).
    eexists. split; [by apply analyzeData_normal|].
    split; [apply decide_signal_well_formed|].
    destruct (decide_signal_snapshot (length data)
                (or_zero ((close <$> data) !! (length data - 1)%nat))
                (timestamp_of now (data !! (length data - 1)%nat)) ind)
      as (Hprice & _ & Hsnap).
    split.
    + intros Hlen. unfold decide_signal.
      by replace (length data <? 200)%nat with true
        by (symmetry; apply Nat.ltb_lt; lia).
    + rewrite Hprice, Hsnap. clear Hprice Hsnap. unfold decide_signal.
      destruct (Nat.ltb_spec (length data) 200) as [Hlt|Hge]; [done|].
      intros _. by apply latest_all_defined.
Qed.

(** * Further properties of the signal engine *)

(** X1: with at least 200 bars, when EMA-50 < EMA-200, price < EMA-50,
    MACD < signal, MACD < 0 and RSI < 45, [analyzeData] returns [SELL] with
    the identifier [SELL-<timestamp>], the entry at the current price, the
    stop-loss at entry + ATR * 2, the take-profit at
    entry - (stop-loss - entry) * 1.5 and the four SELL reasoning lines;
    when one of the five comparisons fails the direction is not [SELL]. *)
Theorem analyzeData_sell (now : Z) (data : list MarketData) :
  (200 <= length data)%nat ->
  let closes := close <$> data in
  let latest := (length data - 1)%nat in
  let price := or_zero (closes !! latest) in
  exists (m : MACD) (e50 e200 macd signal r a : number) (s : Signal),
    calculateMACD closes 12 26 9 = Normal m
    /\ get (calculateEMA closes 50) latest = Num e50
    /\ get (calculateEMA closes 200) latest = Num e200
    /\ get (macdLine m) latest = Num macd
    /\ get (signalLine m) latest = Num signal
    /\ get (calculateRSI closes 14) latest = Num r
    /\ get (calculateATR (high <$> data) (low <$> data) closes 14) latest = Num a
    /\ analyzeData now data = Normal s
    /\ (below e50 e200 -> below price e50 ->
        below macd signal -> below macd (Fin 0) -> below r (Fin 45) ->
        let stop := num_add price (num_mul a (Fin 2)) in
        direction s = SELL
        /\ id s = signal_id SELL (timestamp s)
        /\ entryPrice s = Some price
        /\ stopLoss s = Some stop
        /\ takeProfit s =
             Some (num_sub price (num_mul (num_sub stop price) (Fin (3 # 2))))
        /\ reasoning s =
             [ "Downtrend Confirmed: EMA (50) is below EMA (200).";
               "Bearish Price Action: Price is trading below the EMA (50).";
               "Bearish Momentum: MACD is negative and below its signal line.";
               "Strong Momentum: RSI is below 45, indicating strong selling pressure."
             ]%string)
    /\ (~ below e50 e200 \/ ~ below price e50 \/ ~ below macd signal
        \/ ~ below macd (Fin 0) \/ ~ below r (Fin 45) ->
        direction s <> SELL).
Proof.
  intros Hlen closes latest price.
  destruct (analyzeData_latest now data Hlen)
    as (m & ind & e50 & e200 & macd & signal & r & a
        & Hm & H50 & H200 & Hmacd & Hsig & Hrsi & Hatr & Hs).
  exists m, e50, e200, macd, signal, r, a. eexists.
  do 7 (split; [eassumption|]). split; [exact Hs|]. clear Hs. fold closes latest price.
  unfold below, num_lt. split.
  - intros H1 H2 H3 H4 H5.
    apply num_gt_above in H1, H2, H3, H4, H5.
    rewrite (num_gt_asym _ _ H1). rewrite H1, H2, H3, H4, H5.
    simpl. done.
  - intros Hfail.
    assert (Hconj : num_gt e200 e50 && num_gt e50 price
                    && (num_gt signal macd && num_gt (Fin 0) macd)
                    && num_gt (Fin 45) r = false).
    { destruct Hfail as [H | [H | [H | [H | H]]]];
        apply num_gt_not_above in H; rewrite H;
        rewrite ?andb_false_r, ?andb_false_l; done. }
    rewrite Hconj. cbv iota. case_match; simpl; discriminate.
Qed.

Lemma analyzeData_sell_witness :
  exists s, analyzeData 0 sell_bars = Normal s
            /\ direction s = SELL /\ entryPrice s = Some (Fin 92)
            /\ length (reasoning s) = 4%nat.
Proof.
  destruct (analyzeData_sell 0 sell_bars)
    as (m & e50 & e200 & macd & signal & r & a & s
        & Hm & H50 & H200 & Hmacd & Hsig & Hrsi & Hatr & Hs & Hsell & _).
  - vm_compute. lia.
  - vm_compute in Hm. injection Hm as <-.
    vm_compute in H50, H200, Hmacd, Hsig, Hrsi, Hatr.
    injection H50 as <-. injection H200 as <-. injection Hmacd as <-.
    injection Hsig as <-. injection Hrsi as <-. injection Hatr as <-.
    exists s. split; [exact Hs|].
    destruct Hsell as (Hd & _ & He & _ & _ & Hr);
      try (do 2 eexists; split; [vm_compute; reflexivity|];
           split; [vm_compute; reflexivity|]; vm_compute; reflexivity).
    split; [exact Hd|]. split; [exact He|]. rewrite Hr. reflexivity.
Defined.

(** X2: with at least 200 bars, when neither the BUY nor the SELL
    conjunction holds [analyzeData] returns [HOLD] with the one reasoning
    entry "No high-confluence signal conditions met. Waiting for
    alignment." and no price level. *)
Theorem analyzeData_hold_no_confluence (now : Z) (data : list MarketData)
    (ind : IndicatorData) :
  (200 <= length data)%nat ->
  indicators_of data = Normal ind ->
  let price := or_zero ((close <$> data) !! (length data - 1)%nat) in
  let l := latest_of (length data) ind in
  buy_conditions price l = false ->
  sell_conditions price l = false ->
  exists s,
    analyzeData now data = Normal s
    /\ direction s = HOLD
    /\ reasoning s = [no_confluence]
    /\ entryPrice s = None /\ stopLoss s = None /\ takeProfit s = None.
Proof.
  intros Hlen Hind price l Hbuy Hsell.
  eexists. split; [by apply analyzeData_normal|].
  rewrite decide_signal_warm by (try done; by apply latest_all_defined).
  fold price. fold l. rewrite Hbuy, Hsell. done.
Qed.

Lemma analyzeData_hold_no_confluence_witness :
  exists s, analyzeData 0 (flat_bars 200) = Normal s
            /\ direction s = HOLD /\ reasoning s = [no_confluence].
Proof.
  edestruct (analyzeData_hold_no_confluence 0 (flat_bars 200))
    as (s & Hs & Hd & Hr & _).
  - vm_compute. lia.
  - vm_compute. reflexivity.
  - vm_compute. reflexivity.
  - vm_compute. reflexivity.
  - exists s. split; [exact Hs | split; [exact Hd | exact Hr]].
Defined.



(** * Further properties of the indicator library *)

(** ** RSI of a series that never falls *)

Lemma get_num_changes_of (data : list number) (i : nat) :
  get_num (changes_of data) i =
    if (i + 1 <? length data)%nat
    then num_sub (get_num data (i + 1)) (get_num data i)
    else NaN.
Proof.
  unfold changes_of, get_num at 1. rewrite lookup_drop, list_lookup_imap.
  replace (1 + i)%nat with (i + 1)%nat by lia.
  destruct (Nat.ltb_spec (i + 1) (length data)) as [Hlt|Hge].
  - destruct (lookup_lt_is_Some_2 data (i + 1) Hlt) as [x Hx].
    assert (Hg : get_num data (i + 1) = x) by (unfold get_num; by rewrite Hx).
    rewrite Hx, Hg. simpl.
    replace (0 <? i + 1)%nat with true by (symmetry; apply Nat.ltb_lt; lia).
    by replace (i + 1 - 1)%nat with i by lia.
  - by rewrite lookup_ge_None_2.
Qed.

Lemma never_falls_spec (data : list number) (i : nat) :
  never_falls data = true -> (i + 1 < length data)%nat ->
  num_lt (get_num data (i + 1)) (get_num data i) = false.
Proof.
  unfold never_falls. intros Hall Hi.
  rewrite List.forallb_forall in Hall.
  specialize (Hall i). apply negb_true_iff, Hall, List.in_seq. lia.
Qed.

Lemma num_lt_sub_zero (a b : number) :
  num_lt b a = false -> num_lt (num_sub b a) (Fin 0) = false.
Proof.
  unfold num_lt. destruct a as [x|], b as [y|]; simpl; try done.
  intros H. destruct (Qlt_bool (Qred (y - x)) 0) eqn:E; [|done].
  apply Qlt_bool_iff in E. rewrite Qred_correct in E.
  assert (Hlt : Qlt_bool y x = true) by (apply Qlt_bool_iff; lra).
  congruence.
Qed.

Lemma changes_not_negative (data : list number) (i : nat) :
  never_falls data = true -> num_lt (get_num (changes_of data) i) (Fin 0) = false.
Proof.
  intros Hnf. rewrite get_num_changes_of.
  destruct (Nat.ltb_spec (i + 1) (length data)); [|done].
  by apply num_lt_sub_zero, never_falls_spec.
Qed.

Lemma loss_zero_not_gt (l : number) : loss_zero l -> num_gt l (Fin 0) = false.
Proof.
  intros [-> | (q & -> & Hq)]; [done|]. simpl.
  unfold Qlt_bool. apply negb_false_iff, Qle_bool_iff. rewrite Hq. apply Qle_refl.
Qed.

Lemma loss_zero_div (l : number) (period : nat) :
  loss_zero l -> loss_zero (num_div l (num_of_nat period)).
Proof.
  intros [-> | (q & -> & Hq)]; [by left|]. unfold num_of_nat. simpl.
  destruct (Qeq_bool (inject_Z (Z.of_nat period)) 0) eqn:E; [by left|].
  right. eexists. split; [done|]. rewrite Qred_correct, Hq.
  apply Qeq_bool_neq in E. by field.
Qed.

Lemma loss_zero_smooth (l : number) (period : nat) :
  loss_zero l ->
  loss_zero (num_div (num_add (num_mul l (num_sub (num_of_nat period) (Fin 1)))
                              (Fin 0)) (num_of_nat period)).
Proof.
  intros Hl. apply loss_zero_div.
  destruct Hl as [-> | (q & -> & Hq)]; [by left|]. right.
  unfold num_of_nat. simpl. eexists. split; [done|].
  rewrite !Qred_correct, Hq. ring.
Qed.

Lemma rsi_avg_loss_zero (data : list number) (period k : nat) :
  never_falls data = true -> loss_zero (rsi_avg data period k).2.
Proof.
  intros Hnf. unfold rsi_avg.
  apply (fold_left_invariant (fun avg => loss_zero avg.2)).
  - intros avg i Hl. unfold rsi_smooth.
    rewrite (changes_not_negative data i Hnf). cbn [snd].
    by apply loss_zero_smooth.
  - unfold rsi_seed. simpl. apply loss_zero_div.
    apply (fold_left_invariant (fun acc => loss_zero acc.2)).
    + intros acc i Hl. unfold rsi_initial_step.
      destruct (num_gt (get_num (changes_of data) i) (Fin 0)) eqn:Egt; [done|].
      simpl. pose proof (changes_not_negative data i Hnf) as Hlt.
      unfold num_lt in Hlt.
      destruct (get_num (changes_of data) i) as [c|];
        [|destruct Hl as [-> | (q & -> & _)]; by left].
      destruct Hl as [-> | (q & -> & Hq)]; [by left|]. right.
      simpl in *. eexists. split; [done|]. rewrite Qred_correct, Hq.
      apply negb_false_iff, Qle_bool_iff in Egt.
      apply negb_false_iff, Qle_bool_iff in Hlt. lra.
    + right. by exists 0%Q.
Qed.

Lemma calculateRSI_never_falls_get (data : list number) (period i : nat) :
  never_falls data = true -> (period <= i < length data)%nat ->
  get (calculateRSI data period) i = Num (Fin 0).
Proof.
  intros Hnf Hi. rewrite calculateRSI_get by lia.
  replace (period <=? i)%nat with true by (symmetry; apply Nat.leb_le; lia).
  f_equal. apply rsi_value_no_loss, loss_zero_not_gt. by apply rsi_avg_loss_zero.
Qed.

(** X5: on a series in which no value is lower than the one before, every
    value of the RSI is 0: the average loss never becomes positive and [rs]
    is taken as 0. *)
Theorem calculateRSI_never_falls (data : list number) (period i : nat) (x : number) :
  never_falls data = true ->
  calculateRSI data period !! i = Some (Num x) -> x = Fin 0.
Proof.
  intros Hnf Hx. pose proof (lookup_lt_Some _ _ _ Hx) as Hi.
  rewrite length_calculateRSI in Hi.
  rewrite get_lookup in Hx by (rewrite length_calculateRSI; lia).
  injection Hx as Hx.
  destruct (Nat.le_gt_cases period i) as [Hpi|Hpi].
  - rewrite calculateRSI_never_falls_get in Hx by (try done; lia). by injection Hx.
  - rewrite calculateRSI_get in Hx by done.
    by replace (period <=? i)%nat with false in Hx
      by (symmetry; apply Nat.leb_gt; lia).
Qed.

Lemma calculateRSI_never_falls_witness :
  calculateRSI rising_closes 14 !! 15%nat = Some (Num (Fin 0)).
Proof.
  assert (H : exists x, calculateRSI rising_closes 14 !! 15%nat = Some (Num x))
    by (eexists; vm_compute; reflexivity).
  destruct H as [x Hx]. rewrite Hx. do 2 f_equal.
  apply (calculateRSI_never_falls rising_closes 14 15 x); [reflexivity | exact Hx].
Defined.

(** X6: on a series of bars whose closes never fall, [analyzeData] never
    returns [BUY]: the RSI it reads is 0, which is not above 55. *)
Theorem analyzeData_never_buys_without_falls (now : Z) (data : list MarketData)
    (s : Signal) :
  never_falls (close <$> data) = true ->
  analyzeData now data = Normal s ->
  direction s <> BUY.
Proof.
  intros Hnf Hs.
  destruct (indicators_of_normal data) as (ind & m & Hind & Hm & Hrec).
  rewrite (analyzeData_normal now data ind Hind) in Hs. injection Hs as <-.
  unfold decide_signal.
  destruct (Nat.ltb_spec (length data) 200) as [Hlt|Hge]; [done|].
  rewrite latest_all_defined by done. simpl.
  assert (Hrsi : isRsiBullish (latest_of (length data) ind) = false).
  { unfold isRsiBullish, latest_of. simpl. rewrite Hrec. simpl.
    rewrite calculateRSI_never_falls_get; [done | done |].
    rewrite length_fmap. lia. }
  rewrite Hrsi, andb_false_r. by repeat case_match.
Qed.

Lemma analyzeData_never_buys_without_falls_witness :
  exists s, analyzeData 0 rising_bars = Normal s /\ direction s <> BUY.
Proof.
  eexists. split; [vm_compute; reflexivity|].
  apply (analyzeData_never_buys_without_falls 0 rising_bars).
  - vm_compute. reflexivity.
  - vm_compute. reflexivity.
Defined.

(** ** Series shorter than the period *)

Lemma all_null (l : list cell) :
  (forall i, (i < length l)%nat -> get l i = Null) -> l = replicate (length l) Null.
Proof.
  intros Hall. apply list_eq. intros i.
  destruct (Nat.lt_ge_cases i (length l)) as [Hi|Hi].
  - rewrite get_lookup by done. rewrite Hall by done.
    by rewrite lookup_replicate_2.
  - rewrite lookup_ge_None_2 by done. symmetry. apply lookup_ge_None_2.
    by rewrite length_replicate.
Qed.

Lemma calculateSMA_short (data : list number) (period : nat) :
  (length data < period)%nat ->
  calculateSMA data period = replicate (length data) Null.
Proof.
  intros Hlen. rewrite <- (length_calculateSMA data period).
  apply all_null. intros i Hi. rewrite length_calculateSMA in Hi.
  rewrite get_calculateSMA by done. unfold sma_at.
  by destruct (Z.ltb_spec (Z.of_nat i) (Z.of_nat period - 1)); [|lia].
Qed.

Lemma calculateEMA_short (data : list number) (period : nat) :
  (length data < period)%nat ->
  calculateEMA data period = replicate (length data) Null.
Proof.
  intros Hlen. rewrite <- (length_calculateEMA data period).
  apply all_null. intros i Hi. rewrite length_calculateEMA in Hi.
  pose proof (calculateEMA_get data period i Hi) as Hc. unfold ema_warm in Hc.
  replace (period - 1 <=? i)%nat with false in Hc
    by (symmetry; apply Nat.leb_gt; lia).
  by rewrite andb_false_r in Hc.
Qed.

(** X7: on a series shorter than the period every indicator is [Null] at
    every index: the SMA, the EMA, the RSI and the ATR. *)
Theorem short_series_all_null (data low close : list number) (period : nat) :
  (length data < period)%nat ->
  calculateSMA data period = replicate (length data) Null
  /\ calculateEMA data period = replicate (length data) Null
  /\ calculateRSI data period = replicate (length data) Null
  /\ calculateATR data low close period = replicate (length data) Null.
Proof.
  intros Hlen. split; [by apply calculateSMA_short|].
  split; [by apply calculateEMA_short|]. split.
  - unfold calculateRSI.
    by replace (length data <=? period)%nat with true
      by (symmetry; apply Nat.leb_le; lia).
  - unfold calculateATR.
    by replace (length data <? period)%nat with true
      by (symmetry; apply Nat.ltb_lt; lia).
Qed.

Lemma short_series_all_null_witness :
  calculateEMA [Fin 1; Fin 2] 3 = [Null; Null]
  /\ calculateATR [Fin 1; Fin 2] [Fin 1; Fin 2] [Fin 1; Fin 2] 3 = [Null; Null].
Proof.
  destruct (short_series_all_null [Fin 1; Fin 2] [Fin 1; Fin 2] [Fin 1; Fin 2] 3)
    as (_ & He & _ & Ha).
  - simpl. lia.
  - split; [exact He | exact Ha].
Defined.

(** ** The RSI series *)

(** X8: the RSI series is [Null] before index [period] and a number from
    index [period] on; it is [Null] everywhere when the series has no more
    than [period] values, and once defined it stays defined. *)
Theorem calculateRSI_shape (data : list number) (period : nat) :
  exists values : list number,
    calculateRSI data period
    = replicate (Nat.min period (length data)) Null ++ (Num <$> values)
    /\ length values = (length data - period)%nat.
Proof.
  eexists. split.
  - apply null_prefix_shape.
    + rewrite length_calculateRSI. lia.
    + intros i Hi. rewrite length_calculateRSI in Hi.
      rewrite calculateRSI_get by done.
      replace (Nat.min period (length data) <=? i)%nat with (period <=? i)%nat.
      * destruct (period <=? i)%nat; simpl; eauto.
      * destruct (Nat.leb_spec period i);
          symmetry; [apply Nat.leb_le | apply Nat.leb_gt]; lia.
  - rewrite length_fmap, length_drop, length_calculateRSI. lia.
Qed.

(** ** The MACD histogram *)

Lemma get_replicate_app (k i : nat) (c : cell) (l : list cell) :
  get (replicate k c ++ l) i = if (i <? k)%nat then c else get l (i - k).
Proof.
  unfold get. destruct (Nat.ltb_spec i k).
  - rewrite lookup_app_l by (by rewrite length_replicate).
    by rewrite lookup_replicate_2.
  - rewrite lookup_app_r; rewrite length_replicate; done.
Qed.

Lemma get_fmap_Num (values : list number) (i : nat) :
  (i < length values)%nat -> exists x, get (Num <$> values) i = Num x.
Proof.
  intros Hi. unfold get. rewrite list_lookup_fmap.
  destruct (lookup_lt_is_Some_2 values i Hi) as [x ->]. by exists x.
Qed.

(** X9: at every index of the series the histogram is the MACD line minus
    the signal line where both have a value and [Null] elsewhere, and it has
    a value exactly where the signal line has one. *)
Theorem calculateMACD_histogram (data : list number)
    (fastPeriod slowPeriod signalPeriod : nat) (m : MACD) (i : nat) :
  calculateMACD data fastPeriod slowPeriod signalPeriod = Normal m ->
  (i < length data)%nat ->
  match get (macdLine m) i, get (signalLine m) i with
  | Num a, Num b => get (histogram m) i = Num (num_sub a b)
  | _, _ => get (histogram m) i = Null
  end
  /\ is_defined (get (histogram m) i) = is_defined (get (signalLine m) i).
Proof.
  intros Hm Hi.
  destruct (calculateMACD_shape data fastPeriod slowPeriod signalPeriod)
    as (m' & suffix & Hm' & Hline & Hsignal & Hk & _).
  rewrite Hm in Hm'. injection Hm' as <-.
  assert (Hhist : get (histogram m) i = diff_at (macdLine m) (signalLine m) i).
  { rewrite calculateMACD_normal in Hm. injection Hm as <-. simpl.
    by rewrite get_fmap_seq. }
  rewrite Hhist. unfold diff_at. rewrite Hline, Hsignal, !get_replicate_app.
  destruct (Nat.ltb_spec i (macd_start fastPeriod slowPeriod (length data)))
    as [Hlt|Hge]; [done|].
  destruct (get_fmap_Num suffix (i - macd_start fastPeriod slowPeriod (length data)))
    as [a ->]; [lia|].
  pose proof (calculateEMA_get suffix signalPeriod
                (i - macd_start fastPeriod slowPeriod (length data)) ltac:(lia)) as Hc.
  destruct (ema_warm signalPeriod _); simpl in Hc.
  - destruct Hc as [b ->]. done.
  - rewrite Hc. done.
Qed.

Lemma calculateMACD_histogram_witness :
  exists m,
    calculateMACD [Fin 1; Fin 2; Fin 3; Fin 4; Fin 7; Fin 9] 2 3 2 = Normal m
    /\ get (histogram m) 5 = Num (Fin (2 # 27))
    /\ is_defined (get (histogram m) 2) = false.
Proof.
  eexists. split; [vm_compute; reflexivity|].
  match goal with
  | |- get (histogram ?m) _ = _ /\ _ =>
      destruct (calculateMACD_histogram [Fin 1; Fin 2; Fin 3; Fin 4; Fin 7; Fin 9]
                  2 3 2 m 5) as (H5 & _); [vm_compute; reflexivity | simpl; lia |];
      destruct (calculateMACD_histogram [Fin 1; Fin 2; Fin 3; Fin 4; Fin 7; Fin 9]
                  2 3 2 m 2) as (_ & H2); [vm_compute; reflexivity | simpl; lia |]
  end.
  split; [exact H5 | exact H2].
Defined.

(** ** The ATR series *)

Lemma atr_fold_recurrence (high low close : list number) (period : nat)
    (atr0 : list cell) (k : nat) :
  let r := fold_left (atr_step high low close period) (seq (period + 1) k) atr0 in
  (forall j, (period < j <= period + k)%nat ->
     get r j = Num (atr_next high low close period (to_number (get r (j - 1))) j))
  /\ (forall j, ~ (period < j <= period + k)%nat -> get r j = get atr0 j).
Proof.
  induction k as [|k IH]; intros r.
  - subst r. simpl. split; [intros; lia | done].
  - subst r. rewrite seq_S, fold_left_app. simpl.
    destruct IH as (Hin & Hout).
    set (r := fold_left (atr_step high low close period) (seq (period + 1) k) atr0) in *.
    unfold atr_step. fold (atr_next high low close period
                             (to_number (get r (period + 1 + k - 1))) (period + 1 + k)).
    split.
    + intros j Hj. destruct (Nat.eq_dec j (period + 1 + k)) as [->|Hne].
      * rewrite get_array_set_eq. by rewrite get_array_set_ne by lia.
      * rewrite !get_array_set_ne by lia. apply Hin. lia.
    + intros j Hj. rewrite get_array_set_ne by lia. apply Hout. lia.
Qed.

(** X10: with more than [period] bars the ATR series is [Null] before index
    [period], holds the mean of the true ranges of indices 1 to [period] at
    index [period], and from there on follows Wilder's recurrence
    [atr[i] = (atr[i-1] * (period - 1) + tr[i]) / period]. *)
Theorem calculateATR_recurrence (high low close : list number) (period : nat) :
  (period < length high)%nat ->
  let atr := calculateATR high low close period in
  (forall i, (i < period)%nat -> get atr i = Null)
  /\ get atr period =
       Num (num_div (fold_left (fun s i => num_add s (true_range high low close i))
                               (seq 1 period) (Fin 0))
                    (num_of_nat period))
  /\ (forall i, (period < i < length high)%nat ->
        get atr i =
          Num (atr_next high low close period (to_number (get atr (i - 1))) i)).
Proof.
  intros Hlen atr. subst atr. unfold calculateATR.
  destruct (Nat.ltb_spec (length high) period) as [Hlt|_]; [lia|].
  set (seed := Num _). set (atr0 := array_set _ period seed).
  destruct (atr_fold_recurrence high low close period atr0
              (length high - (period + 1))) as (Hin & Hout).
  split; [|split].
  - intros i Hi. rewrite Hout by lia. unfold atr0.
    rewrite get_array_set_ne by lia. apply get_replicate. lia.
  - rewrite Hout by lia. unfold atr0. by rewrite get_array_set_eq.
  - intros i Hi. apply Hin. lia.
Qed.

Lemma calculateATR_recurrence_witness :
  get (calculateATR [Fin 3; Fin 4; Fin 6] [Fin 1; Fin 2; Fin 3]
                    [Fin 1; Fin 2; Fin 4] 2) 2 = Num (Fin (7 # 2)).
Proof.
  refine (proj1 (proj2 (calculateATR_recurrence [Fin 3; Fin 4; Fin 6]
                          [Fin 1; Fin 2; Fin 3] [Fin 1; Fin 2; Fin 4] 2 _))).
  simpl. lia.
Defined.

(** ** The values of the EMA *)

Lemma get_cons_0 (c : cell) (l : list cell) : get (c :: l) 0 = c.
Proof. done. Qed.

Lemma get_cons_S (c : cell) (l : list cell) (j : nat) :
  get (c :: l) (S j) = get l j.
Proof. done. Qed.

Lemma ema_loop_cons m period sma (i : nat) (prevEma : cell) (x : number)
    (rest : list number) :
  ema_loop m period sma i prevEma (x :: rest) =
    (ema_head m period sma i prevEma x).1
      :: ema_loop m period sma (S i) (ema_head m period sma i prevEma x).2 rest.
Proof. simpl. unfold ema_head, ema_next. by repeat case_match. Qed.

(** Past the warm-up the cell pushed is a number, and it is the [prevEma]
    of the next turn. *)
Lemma ema_head_warm m period sma (i : nat) (prevEma : cell) (x : number) :
  (1 <= period <= S i)%nat ->
  (forall j, (j + 1)%nat = period -> j = i -> exists y, get sma j = Num y) ->
  ((period <= i)%nat -> exists p, prevEma = Num p) ->
  exists c, ema_head m period sma i prevEma x = (Num c, Num c)
            /\ ((period <= i)%nat -> c = ema_next m x (to_number prevEma)).
Proof.
  intros Hp Hsma Hprev. unfold ema_head.
  destruct (Z.ltb_spec (Z.of_nat i) (Z.of_nat period - 1)); [lia|].
  destruct (Z.eqb_spec (Z.of_nat i) (Z.of_nat period - 1)) as [Heq|Hne].
  - destruct (Hsma i) as [y ->]; [lia | done |]. exists y. split; [done | lia].
  - destruct Hprev as [p ->]; [lia|]. simpl. eexists. split; done.
Qed.

Lemma ema_loop_recurrence m period sma (rest : list number) :
  forall i prevEma,
    (1 <= period)%nat ->
    (forall j, (j + 1)%nat = period -> (i <= j < i + length rest)%nat ->
               exists y, get sma j = Num y) ->
    ((period <= i)%nat -> exists p, prevEma = Num p) ->
    forall j, (S j < length rest)%nat -> (period <= i + S j)%nat ->
      get (ema_loop m period sma i prevEma rest) (S j) =
        Num (ema_next m (get_num rest (S j))
               (to_number (get (ema_loop m period sma i prevEma rest) j))).
Proof.
  induction rest as [|x rest IH]; intros i prevEma Hp Hsma Hprev j Hj Hwarm;
    simpl in Hj; [lia|].
  rewrite ema_loop_cons, get_cons_S.
  destruct j as [|j].
  - destruct rest as [|x1 rest]; simpl in Hj; [lia|].
    destruct (ema_head_warm m period sma i prevEma x) as (c & Hc & _);
      [lia | intros k Hk ->; apply Hsma; [done | simpl; lia] | done |].
    rewrite Hc. simpl fst. simpl snd. rewrite get_cons_0, ema_loop_cons, get_cons_0.
    destruct (ema_head_warm m period sma (S i) (Num c) x1) as (c1 & Hc1 & Hnext);
      [lia | intros k Hk ->; apply Hsma; [done | simpl; lia] | eauto |].
    rewrite Hc1. simpl. f_equal. apply Hnext. lia.
  - rewrite get_cons_S.
    change (get_num (x :: rest) (S (S j))) with (get_num rest (S j)).
    apply IH; [done | | | lia | lia].
    + intros k Hk1 Hk2. apply Hsma; [done | simpl; lia].
    + intros Hi.
      destruct (ema_head_warm m period sma i prevEma x) as (c & Hc & _);
        [lia | intros k Hk ->; apply Hsma; [done | simpl; lia] | done |].
      rewrite Hc. simpl. eauto.
Qed.

Lemma ema_loop_seed m period sma (rest : list number) :
  forall i prevEma j,
    (i + j + 1)%nat = period -> (j < length rest)%nat ->
    get (ema_loop m period sma i prevEma rest) j = get sma (i + j).
Proof.
  induction rest as [|x rest IH]; intros i prevEma j Hp Hj; simpl in Hj; [lia|].
  rewrite ema_loop_cons. destruct j as [|j].
  - rewrite get_cons_0. unfold ema_head.
    destruct (Z.ltb_spec (Z.of_nat i) (Z.of_nat period - 1)); [lia|].
    destruct (Z.eqb_spec (Z.of_nat i) (Z.of_nat period - 1)); [|lia].
    simpl. f_equal. lia.
  - rewrite get_cons_S. rewrite IH by lia. f_equal. lia.
Qed.

(** X12: for a period of at least 1 on at least [period] values, the EMA at
    index [period - 1] is the mean of the first [period] values, and at each
    later index [i] it is
    [(data[i] - ema[i-1]) * multiplier + ema[i-1]] with
    [multiplier = 2 / (period + 1)]. *)
Theorem calculateEMA_recurrence (data : list number) (period : nat) :
  (1 <= period <= length data)%nat ->
  let ema := calculateEMA data period in
  let multiplier := num_div (Fin 2) (num_of_nat (period + 1)) in
  get ema (period - 1) =
    Num (num_div (num_sum (take period data)) (num_of_nat period))
  /\ forall i, (period <= i < length data)%nat ->
       get ema i = Num (ema_next multiplier (get_num data i)
                                 (to_number (get ema (i - 1)))).
Proof.
  intros Hp ema multiplier. subst ema multiplier. unfold calculateEMA. split.
  - rewrite (ema_loop_seed _ period _ data 0 Null (period - 1)) by lia.
    simpl. rewrite get_calculateSMA by lia. unfold sma_at.
    destruct (Z.ltb_spec (Z.of_nat (period - 1)) (Z.of_nat period - 1)); [lia|].
    unfold slice. replace (period - 1 + 1 - period)%nat with 0%nat by lia.
    by replace (period - 1 + 1 - 0)%nat with period by lia.
  - intros i Hi. destruct i as [|i]; [lia|].
    replace (S i - 1)%nat with i by lia.
    apply ema_loop_recurrence; try lia.
    intros j Hj1 Hj2. rewrite get_calculateSMA by lia. unfold sma_at.
    destruct (Z.ltb_spec (Z.of_nat j) (Z.of_nat period - 1)); [lia|]. eauto.
Qed.

Lemma calculateEMA_recurrence_witness :
  get (calculateEMA [Fin 1; Fin 2; Fin 3; Fin 4] 2) 1 = Num (Fin (3 # 2))
  /\ get (calculateEMA [Fin 1; Fin 2; Fin 3; Fin 4] 2) 2 = Num (Fin (5 # 2)).
Proof.
  destruct (calculateEMA_recurrence [Fin 1; Fin 2; Fin 3; Fin 4] 2) as (Hseed & Hrec).
  - simpl. lia.
  - split; [exact Hseed|]. apply (Hrec 2%nat). simpl. lia.
Defined.

(** * Synthetic market data *)

Lemma generate_step_date rnd now count st i :
  date (generate_step rnd now count st i).1
  = (now - (Z.of_nat count - Z.of_nat i) * 3600000)%Z.
Proof. destruct st as [[lastClose trend] n]. simpl. lia. Qed.

Lemma generate_step_open rnd now count st i :
  open (generate_step rnd now count st i).1 = st.1.1.
Proof. by destruct st as [[lastClose trend] n]. Qed.

Lemma generate_step_close rnd now count st i :
  (generate_step rnd now count st i).2.1.1
  = close (generate_step rnd now count st i).1.
Proof. by destruct st as [[lastClose trend] n]. Qed.

Lemma length_generate_loop rnd now count (indices : list nat) :
  forall st, length (generate_loop rnd now count st indices) = length indices.
Proof. induction indices as [|i rest IH]; intros st; simpl; [done | by rewrite IH]. Qed.

Lemma generate_loop_date rnd now count (indices : list nat) :
  forall st k i bar,
    indices !! k = Some i ->
    generate_loop rnd now count st indices !! k = Some bar ->
    date bar = (now - (Z.of_nat count - Z.of_nat i) * 3600000)%Z.
Proof.
  induction indices as [|i0 rest IH]; intros st k i bar Hk Hbar; [done|].
  destruct k as [|k]; simpl in Hk, Hbar.
  - injection Hk as <-. injection Hbar as <-. apply generate_step_date.
  - by eapply IH.
Qed.

Lemma generate_loop_continuity rnd now count (indices : list nat) :
  forall st k b1 b2,
    generate_loop rnd now count st indices !! k = Some b1 ->
    generate_loop rnd now count st indices !! S k = Some b2 ->
    open b2 = close b1.
Proof.
  induction indices as [|i0 rest IH]; intros st k b1 b2 H1 H2; [done|].
  destruct k as [|k]; simpl in H1, H2.
  - injection H1 as <-. destruct rest as [|i1 rest]; [done|].
    simpl in H2. injection H2 as <-.
    by rewrite generate_step_open, generate_step_close.
  - by eapply IH.
Qed.

(** X15: [generateMarketData] returns exactly [count] bars, and bar [i] is
    dated [count - i] hours before the clock: the bars are one hour apart, in
    ascending order, the last one an hour before [now]. *)
Theorem generateMarketData_dates (rnd : nat -> Q) (now : Z) (count : nat)
    (pairId : string) :
  length (generateMarketData rnd now count pairId) = count
  /\ forall i bar,
       generateMarketData rnd now count pairId !! i = Some bar ->
       date bar = (now - (Z.of_nat count - Z.of_nat i) * 3600000)%Z.
Proof.
  unfold generateMarketData. split.
  - by rewrite length_generate_loop, length_seq.
  - intros i bar Hbar. pose proof (lookup_lt_Some _ _ _ Hbar) as Hi.
    rewrite length_generate_loop, length_seq in Hi.
    eapply generate_loop_date; [|exact Hbar]. by rewrite lookup_seq_lt.
Qed.

(** X16: in the series [generateMarketData] returns every bar opens at the
    close of the bar before it, and the first bar opens at the base price of
    the pair times a factor [0.9 + 0.2 * r], [r] the first draw. *)
Theorem generateMarketData_continuity (rnd : nat -> Q) (now : Z) (count : nat)
    (pairId : string) (i : nat) (bar : MarketData) :
  generateMarketData rnd now count pairId !! i = Some bar ->
  match i with
  | O => open bar = num_mul (base_price pairId)
                      (num_add (Fin 0.9) (num_mul (Fin (rnd 0%nat)) (Fin 0.2)))
  | S j => exists prev, generateMarketData rnd now count pairId !! j = Some prev
                        /\ open bar = close prev
  end.
Proof.
  intros Hbar. destruct i as [|j].
  - unfold generateMarketData in Hbar. destruct count as [|count]; [done|].
    simpl in Hbar. by injection Hbar as <-.
  - pose proof (lookup_lt_Some _ _ _ Hbar) as Hi.
    destruct (lookup_lt_is_Some_2 (generateMarketData rnd now count pairId) j)
      as [prev Hprev]; [lia|].
    exists prev. split; [done|].
    by eapply generate_loop_continuity.
Qed.

Lemma generateMarketData_continuity_witness :
  exists prev,
    generateMarketData (fun _ => 1 # 2)%Q 1000000000 3 "ETH/USDT" !! 0%nat = Some prev
    /\ Fin (12009 # 4) = close prev.
Proof.
  refine (generateMarketData_continuity (fun _ => 1 # 2)%Q 1000000000 3 "ETH/USDT" 1
            (mkMarketData 992800000 (Fin (12009 # 4)) _ _ _ _) _).
  vm_compute. reflexivity.
Defined.

(** * Interval lengths *)

Lemma slice_last_snoc (s : string) (c : ascii) :
  slice_last (s ++ String c EmptyString) = String c EmptyString.
Proof.
  induction s as [|a s IH]; [done|].
  simpl. destruct s as [|b s]; [done|]. exact IH.
Qed.

Lemma slice_init_snoc (s : string) (c : ascii) :
  slice_init (s ++ String c EmptyString) = s.
Proof.
  induction s as [|a s IH]; [done|].
  simpl. destruct s as [|b s]; [done|]. simpl in *. by rewrite IH.
Qed.

Lemma parse_digits_uint (u : Decimal.uint) :
  forall a, parse_digits 10 (NilEmpty.string_of_uint u) (Some a)
            = Some (Nat.of_uint_acc u a).
Proof.
  induction u; intros a; simpl; [done|..];
    rewrite IHu; do 2 f_equal; rewrite Nat.tail_mul_spec; lia.
Qed.

Lemma parseInt_uint (u : Decimal.uint) :
  parseInt (NilZero.string_of_uint u) = num_of_nat (Nat.of_uint u).
Proof.
  unfold num_of_nat, Nat.of_uint.
  destruct u as [|u|u|u|u|u|u|u|u|u|u]; [done|..];
    unfold parseInt; simpl NilZero.string_of_uint.
  1: destruct u.
  all: simpl; rewrite ?parse_digits_uint, ?Z.mul_1_l, ?Nat.tail_mul_spec;
    try done; do 3 f_equal; lia.
Qed.

Lemma parseInt_decimal (n : nat) :
  parseInt (NilZero.string_of_uint (Nat.to_uint n)) = num_of_nat n.
Proof. by rewrite parseInt_uint, DecimalNat.Unsigned.of_to. Qed.

Lemma num_eqb_scaled (z k : Z) (a : number) :
  num_eqb a (Fin (inject_Z z)) = true ->
  num_eqb (num_mul a (Fin (inject_Z k))) (Fin (inject_Z (z * k))) = true.
Proof.
  destruct a as [q|]; [|done]. simpl.
  rewrite !Qeq_bool_iff. intros Hq.
  rewrite Qred_correct, Hq, inject_Z_mult. reflexivity.
Qed.

(** X18: for [n] up to 100 000 000, where every product below is an integer
    that binary64 holds exactly: on the decimal digits of [n] followed by a
    unit, [getIntervalMilliseconds] is [n] minutes, hours or days in
    milliseconds, [n * 60000] for [m], [n * 3600000] for [h],
    [n * 86400000] for [d]. *)
Theorem getIntervalMilliseconds_units (n : nat) :
  (Z.of_nat n <= 100000000)%Z ->
  let digits := NilZero.string_of_uint (Nat.to_uint n) in
  let ms (k : Z) := Fin (inject_Z (Z.of_nat n * k)) in
  num_eqb (getIntervalMilliseconds (digits ++ "m")) (ms 60000%Z) = true
  /\ num_eqb (getIntervalMilliseconds (digits ++ "h")) (ms 3600000%Z) = true
  /\ num_eqb (getIntervalMilliseconds (digits ++ "d")) (ms 86400000%Z) = true.
Proof.
  intros _ digits ms. unfold getIntervalMilliseconds.
  rewrite !slice_last_snoc, !slice_init_snoc. subst digits ms.
  rewrite parseInt_decimal.
  assert (Hn : num_eqb (num_of_nat n) (Fin (inject_Z (Z.of_nat n))) = true).
  { unfold num_of_nat. simpl. apply Qeq_bool_iff. reflexivity. }
  change (Fin 60) with (Fin (inject_Z 60)).
  change (Fin 1000) with (Fin (inject_Z 1000)).
  change (Fin 24) with (Fin (inject_Z 24)).
  cbn [String.eqb Ascii.eqb Bool.eqb].
  split; [|split].
  - replace (Z.of_nat n * 60000)%Z with (Z.of_nat n * 60 * 1000)%Z by lia.
    by do 2 apply num_eqb_scaled.
  - replace (Z.of_nat n * 3600000)%Z with (Z.of_nat n * 60 * 60 * 1000)%Z by lia.
    by do 3 apply num_eqb_scaled.
  - replace (Z.of_nat n * 86400000)%Z with (Z.of_nat n * 24 * 60 * 60 * 1000)%Z by lia.
    by do 4 apply num_eqb_scaled.
Qed.

Lemma getIntervalMilliseconds_units_witness :
  num_eqb (getIntervalMilliseconds "15m") (Fin 900000) = true
  /\ num_eqb (getIntervalMilliseconds "15h") (Fin 54000000) = true
  /\ num_eqb (getIntervalMilliseconds "15d") (Fin 1296000000) = true.
Proof.
  apply (getIntervalMilliseconds_units 15). vm_compute. discriminate.
Defined.

(** X19: on a string that ends with any character other than [m], [h] and
    [d] (so for the intervals [1w] and [1M]), and on the empty string,
    [getIntervalMilliseconds] is one hour whatever comes before the unit. *)
Theorem getIntervalMilliseconds_default (s : string) (c : ascii) :
  c <> "m"%char -> c <> "h"%char -> c <> "d"%char ->
  getIntervalMilliseconds (s ++ String c EmptyString) = Fin 3600000
  /\ getIntervalMilliseconds EmptyString = Fin 3600000.
Proof.
  intros Hm Hh Hd. split; [|reflexivity].
  unfold getIntervalMilliseconds. rewrite slice_last_snoc.
  assert (Hne : forall c', c <> c' ->
            String.eqb (String c EmptyString) (String c' EmptyString) = false).
  { intros c' Hc. apply String.eqb_neq. congruence. }
  rewrite !Hne by done. reflexivity.
Qed.

Lemma getIntervalMilliseconds_default_witness :
  getIntervalMilliseconds "1w" = Fin 3600000.
Proof.
  apply (getIntervalMilliseconds_default "1" "w"); discriminate.
Defined.

(** * Closing remarks on the indicators *)

(** X21: on fewer bars than the longer of the two periods the three series
    [calculateMACD] returns are [Null] at every index. *)
Theorem calculateMACD_short (data : list number)
    (fastPeriod slowPeriod signalPeriod : nat) :
  (length data < Nat.max fastPeriod slowPeriod)%nat ->
  calculateMACD data fastPeriod slowPeriod signalPeriod =
    Normal (mkMACD (replicate (length data) Null) (replicate (length data) Null)
                   (replicate (length data) Null)).
Proof.
  intros Hlen. rewrite calculateMACD_normal.
  pose proof (macd_line_shape data fastPeriod slowPeriod) as Hshape.
  cbv zeta in Hshape.
  assert (Hstart : macd_start fastPeriod slowPeriod (length data) = length data).
  { unfold macd_start. case_match; lia. }
  rewrite Hstart in Hshape.
  set (suffix := to_number <$> drop (length data) (macd_line data fastPeriod slowPeriod))
    in Hshape.
  destruct Hshape as (Hline & Hvalid & Hk). clearbody suffix.
  assert (suffix = []) as -> by (apply nil_length_inv; lia).
  rewrite Hvalid, Hline. simpl. rewrite !app_nil_r, Nat.sub_0_r.
  do 2 f_equal.
  remember (diff_at (replicate (length data) Null) (replicate (length data) Null)
              <$> seq 0 (length data)) as hist eqn:Hhist.
  assert (Hl : length hist = length data)
    by (rewrite Hhist; by rewrite length_fmap, length_seq).
  rewrite <- Hl. apply all_null. intros i Hi. rewrite Hl in Hi.
  rewrite Hhist, get_fmap_seq by done. unfold diff_at.
  by rewrite get_replicate.
Qed.

Lemma calculateMACD_short_witness :
  calculateMACD [Fin 1; Fin 2; Fin 3] 12 26 9 =
    Normal (mkMACD [Null; Null; Null] [Null; Null; Null] [Null; Null; Null]).
Proof.
  apply (calculateMACD_short [Fin 1; Fin 2; Fin 3] 12 26 9). simpl. lia.
Defined.

(** X22: except on exactly 14 bars, each of the seven series of the
    snapshot [analyzeData] returns has one cell per bar. *)
Theorem analyzeData_snapshot_lengths (now : Z) (data : list MarketData)
    (s : Signal) :
  length data <> 14%nat ->
  analyzeData now data = Normal s ->
  Forall (fun series => length series = length data)
    [ ema50 (indicatorData s); ema200 (indicatorData s);
      ind_macdLine (indicatorData s); ind_signalLine (indicatorData s);
      ind_histogram (indicatorData s); rsi (indicatorData s);
      atr (indicatorData s) ].
Proof.
  intros Hlen Hs.
  destruct (indicators_of_normal data) as (ind & m & Hind & Hm & Hrec).
  rewrite (analyzeData_normal now data ind Hind) in Hs. injection Hs as <-.
  destruct (decide_signal_snapshot (length data)
              (or_zero ((close <$> data) !! (length data - 1)%nat))
              (timestamp_of now (data !! (length data - 1)%nat)) ind)
    as (_ & _ & ->).
  rewrite Hrec. simpl.
  rewrite calculateMACD_normal in Hm. injection Hm as <-. simpl.
  destruct (macd_line_shape (close <$> data) 12 26) as (_ & Hvalid & Hk).
  repeat apply Forall_cons_2; try apply Forall_nil_2.
  - by rewrite length_calculateEMA, length_fmap.
  - by rewrite length_calculateEMA, length_fmap.
  - by rewrite length_macd_line, length_fmap.
  - rewrite length_app, length_replicate, length_calculateEMA, Hvalid.
    rewrite length_fmap in *. lia.
  - by rewrite length_fmap, length_seq, length_fmap.
  - by rewrite length_calculateRSI, length_fmap.
  - rewrite length_calculateATR, !length_fmap.
    by destruct (Nat.eqb_spec (length data) 14).
Qed.

Lemma analyzeData_snapshot_lengths_witness :
  exists s, analyzeData 0 (flat_bars 50) = Normal s
            /\ length (atr (indicatorData s)) = 50%nat.
Proof.
  eexists. split; [vm_compute; reflexivity|].
  match goal with
  | |- length (atr (indicatorData ?s)) = _ =>
      assert (Hall := analyzeData_snapshot_lengths 0 (flat_bars 50) s
                        ltac:(vm_compute; lia) ltac:(vm_compute; reflexivity))
  end.
  exact (Forall_lookup_1 _ _ 6%nat _ Hall eq_refl).
Defined.
